(** * gorkflow: backoff, stores and cache-through accessors

    A shallow embedding of the parts of the gorkflow workflow engine that
    its specification makes checkable statements about:

    - [CalculateBackoff] (package gorkflow, wrapped by engine.calculateBackoff),
    - the in-memory store [MemoryStore] and the SQL store [LibSQLStore],
      with the JSON document the SQL store keeps of a run,
    - the per-run accessors [stepAccessor] and [stateAccessor],
    - the config propagation done by [WorkflowBuilder.Build].

    Go values are modelled as follows.  [int] and [time.Duration] are
    64-bit two's-complement integers: a [Z] with the wrap-around written
    out.  A [[]byte] is the list of its bytes.  A Go map is a [gmap]; a
    pointer that may be nil is an [option].  A method with a pointer
    receiver that mutates its receiver takes the old state and returns the
    new one next to its Go results. *)

From Stdlib Require Import ZArith Lia Sorting.Sorted Sorting.Permutation.
From stdpp Require Import base numbers option list gmap strings.

Local Open Scope Z_scope.

(** ** Go results *)

(** The sentinel errors of package gorkflow that the stores return, the
    opaque errors built with [fmt.Errorf], and [%w] wrapping. *)
Inductive error : Type :=
  | ErrRunNotFound
  | ErrStepExecutionNotFound
  | ErrStepOutputNotFound
  | ErrStateNotFound
  | ErrSqlDatabaseClosed                 (* database/sql: database is closed *)
  | Errorf (msg : string)                (* fmt.Errorf without %w *)
  | ErrWrap (msg : string) (e : error).  (* fmt.Errorf("msg: %w", e) *)

(** A Go result pair [(T, error)]: exactly one side is meaningful. *)
Inductive result (A : Type) : Type :=
  | Ok (a : A)
  | Err (e : error).
Arguments Ok {A} a.
Arguments Err {A} e.

(** [err == nil] on a result. *)
Definition is_ok {A} (r : result A) : bool :=
  match r with Ok _ => true | Err _ => false end.

(** A Go call that either returns or panics. *)
Inductive outcome (A : Type) : Type :=
  | Returns (a : A)
  | Panics.
Arguments Returns {A} a.
Arguments Panics {A}.

Definition bytes := list Byte.byte.

#[export] Instance byte_eq_dec : EqDecision Byte.byte := Byte.byte_eq_dec.
#[export] Instance bytes_eq_dec : EqDecision bytes := list_eq_dec.

(** ** Machine integers *)

(** Go's [int] is taken to be 64 bits wide, as it is on the platforms
    the engine is built for; [time.Duration] is an [int64] by definition. *)

(** The value of a mathematical integer stored in an [int64]. *)
Definition wrap64 (z : Z) : Z := (z + 2 ^ 63) mod 2 ^ 64 - 2 ^ 63.

Definition in_int64 (z : Z) : Prop := - 2 ^ 63 <= z < 2 ^ 63.

Definition mul64 (x y : Z) : Z := wrap64 (x * y).
Definition sub64 (x y : Z) : Z := wrap64 (x - y).

(** [x << n] on [int]: a negative count panics, bits shifted out are lost
    (so a count of 64 or more gives 0). *)
Definition shl64 (x n : Z) : outcome Z :=
  if n <? 0 then Panics else Returns (wrap64 (Z.shiftl x n)).

(** ** Backoff (package gorkflow) *)

(** [time.Millisecond], in nanoseconds, the unit of [time.Duration]. *)
Definition Millisecond : Z := 1000000.

(** [CalculateBackoff(baseDelayMs, attempt, strategy)]; the result is a
    [time.Duration]. *)
Definition CalculateBackoff (baseDelayMs attempt : Z) (strategy : string)
  : outcome Z :=
  if attempt =? 0 then Returns 0
  else
    let baseDelay := mul64 baseDelayMs Millisecond in
    if String.eqb strategy "EXPONENTIAL" then
      match shl64 1 (sub64 attempt 1) with
      | Panics => Panics
      | Returns multiplier => Returns (mul64 baseDelay multiplier)
      end
    else if String.eqb strategy "LINEAR" then
      Returns (mul64 baseDelay attempt)
    else if String.eqb strategy "NONE" then
      Returns 0
    else
      Returns (mul64 baseDelay attempt).

(** engine.calculateBackoff, the engine's wrapper. *)
Definition calculateBackoff (baseDelayMs attempt : Z) (strategy : string)
  : outcome Z :=
  CalculateBackoff baseDelayMs attempt strategy.

(** ** Slices and maps: the copies the stores make *)

(** [make([]byte, n)]: [n] zero bytes. *)
Definition make (n : nat) : bytes := replicate n Byte.x00.

(** The builtin [copy(dst, src)]: overwrites the first
    [min(len(dst), len(src))] elements of [dst]; the result is the new
    contents of [dst]. *)
Definition copy (dst src : bytes) : bytes :=
  let n := Nat.min (length dst) (length src) in
  take n src ++ drop n dst.

(** [c := make([]byte, len(b)); copy(c, b)]. *)
Definition copyBytes (b : bytes) : bytes := copy (make (length b)) b.

(** [c := make(map[string]V, len(m)); for k, v := range m { c[k] = v }]. *)
Definition copyMap {V} (m : gmap string V) : gmap string V :=
  map_fold (fun k v acc => <[k := v]> acc) ∅ m.

(** The same loop with every value copied by [f]. *)
Definition copyMapWith {V} (f : V -> V) (m : gmap string V) : gmap string V :=
  map_fold (fun k v acc => <[k := f v]> acc) ∅ m.

(** ** Run and step records (package gorkflow) *)

(** [time.Time], as the instant it denotes in Unix nanoseconds. *)
Definition Time := Z.

Definition RunStatus := string.
Definition RunStatusPending : RunStatus := "PENDING".
Definition RunStatusRunning : RunStatus := "RUNNING".
Definition RunStatusCompleted : RunStatus := "COMPLETED".
Definition RunStatusFailed : RunStatus := "FAILED".
Definition RunStatusCancelled : RunStatus := "CANCELLED".

(** [RunStatus.IsTerminal]. *)
Definition RunStatus_IsTerminal (s : RunStatus) : bool :=
  String.eqb s RunStatusCompleted
  || String.eqb s RunStatusFailed
  || String.eqb s RunStatusCancelled.

Definition StepStatus := string.
Definition StepStatusPending : StepStatus := "PENDING".
Definition StepStatusRunning : StepStatus := "RUNNING".
Definition StepStatusCompleted : StepStatus := "COMPLETED".
Definition StepStatusFailed : StepStatus := "FAILED".
Definition StepStatusSkipped : StepStatus := "SKIPPED".
Definition StepStatusRetrying : StepStatus := "RETRYING".

(** [StepStatus.IsTerminal]. *)
Definition StepStatus_IsTerminal (s : StepStatus) : bool :=
  String.eqb s StepStatusCompleted
  || String.eqb s StepStatusFailed
  || String.eqb s StepStatusSkipped.

Module WorkflowError.
(** Modelled from the spec: the struct [WorkflowError] is declared in a
    file that is not part of the sources at hand.  The specification
    gives it a kind, a message and optional details; the store code
    reads and copies its [Details] map.  Detail values ([any]) are
    taken to be strings. *)
Record t : Type := mk {
  Code : string;
  Message : string;
  Details : option (gmap string string)
}.
End WorkflowError.

Module WorkflowRun.
Record t : Type := mk {
  RunID : string;
  WorkflowID : string;
  WorkflowVersion : string;
  Status : RunStatus;
  Progress : Z * Z;                      (* float64, see below *)
  CreatedAt : Time;
  StartedAt : option Time;               (* *time.Time *)
  CompletedAt : option Time;             (* *time.Time *)
  UpdatedAt : Time;
  Input : option bytes;                  (* json.RawMessage, None = nil *)
  Output : option bytes;
  Error : option WorkflowError.t;        (* *WorkflowError *)
  ResourceID : string;
  Tags : option (gmap string string);    (* None = nil map *)
  Context : option bytes
}.
(** [Progress] is a [float64] that the stores only ever copy; it is
    kept as the pair (mantissa, exponent) of the value it holds. *)

Definition set_Status (st : RunStatus) (r : t) : t :=
  mk (RunID r) (WorkflowID r) (WorkflowVersion r) st (Progress r)
     (CreatedAt r) (StartedAt r) (CompletedAt r) (UpdatedAt r)
     (Input r) (Output r) (Error r) (ResourceID r) (Tags r) (Context r).

Definition set_Error (e : option WorkflowError.t) (r : t) : t :=
  mk (RunID r) (WorkflowID r) (WorkflowVersion r) (Status r) (Progress r)
     (CreatedAt r) (StartedAt r) (CompletedAt r) (UpdatedAt r)
     (Input r) (Output r) e (ResourceID r) (Tags r) (Context r).
End WorkflowRun.

Module StepExecution.
Record t : Type := mk {
  RunID : string;
  StepID : string;
  ExecutionIndex : Z;
  Status : StepStatus;
  StartedAt : option Time;
  CompletedAt : option Time;
  DurationMs : Z;
  Input : option bytes;
  Output : option bytes;
  Error : option string;                 (* *StepError, by its message *)
  Attempt : Z;
  CreatedAt : Time;
  UpdatedAt : Time
}.
End StepExecution.

(** [errCopy := *err] followed by the copy of [Details], as written in
    both [deepCopyRun] and [MemoryStore.UpdateRunStatus]. *)
Definition copyWorkflowError (e : WorkflowError.t) : WorkflowError.t :=
  WorkflowError.mk (WorkflowError.Code e) (WorkflowError.Message e)
    (match WorkflowError.Details e with
     | Some d => Some (copyMap d)
     | None => None
     end).

(** [deepCopyRun] (the argument is never nil where the stores call it). *)
Definition deepCopyRun (run : WorkflowRun.t) : WorkflowRun.t :=
  WorkflowRun.mk
    (WorkflowRun.RunID run) (WorkflowRun.WorkflowID run)
    (WorkflowRun.WorkflowVersion run) (WorkflowRun.Status run)
    (WorkflowRun.Progress run) (WorkflowRun.CreatedAt run)
    (match WorkflowRun.StartedAt run with Some t => Some t | None => None end)
    (match WorkflowRun.CompletedAt run with Some t => Some t | None => None end)
    (WorkflowRun.UpdatedAt run)
    (match WorkflowRun.Input run with
     | Some b => Some (copyBytes b) | None => None end)
    (match WorkflowRun.Output run with
     | Some b => Some (copyBytes b) | None => None end)
    (match WorkflowRun.Error run with
     | Some e => Some (copyWorkflowError e) | None => None end)
    (WorkflowRun.ResourceID run)
    (match WorkflowRun.Tags run with
     | Some m => Some (copyMap m) | None => None end)
    (match WorkflowRun.Context run with
     | Some b => Some (copyBytes b) | None => None end).

(** [deepCopyStepExecution]: [execCopy := *exec], a copy of the struct. *)
Definition deepCopyStepExecution (exec : StepExecution.t) : StepExecution.t :=
  StepExecution.mk
    (StepExecution.RunID exec) (StepExecution.StepID exec)
    (StepExecution.ExecutionIndex exec) (StepExecution.Status exec)
    (StepExecution.StartedAt exec) (StepExecution.CompletedAt exec)
    (StepExecution.DurationMs exec) (StepExecution.Input exec)
    (StepExecution.Output exec) (StepExecution.Error exec)
    (StepExecution.Attempt exec) (StepExecution.CreatedAt exec)
    (StepExecution.UpdatedAt exec).

(** ** sort.Slice *)

(** [sort.Slice(xs, less)] promises a permutation of [xs] in which no
    element is [less] than one before it, and nothing about the order of
    elements neither of which is [less] than the other.  The model
    inserts the elements one by one; the theorems below use only the two
    promised properties. *)
Fixpoint sort_insert {A} (less : A -> A -> bool) (x : A) (l : list A) : list A :=
  match l with
  | [] => [x]
  | y :: l' => if less x y then x :: y :: l' else y :: sort_insert less x l'
  end.

Definition sort_Slice {A} (less : A -> A -> bool) (l : list A) : list A :=
  foldr (sort_insert less) [] l.

(** ** The in-memory store (package store) *)

Module MemoryStore.

(** The four maps of the struct.  The store is the only holder of the
    records it keeps (everything is copied on the way in and out), so
    the [*WorkflowRun] values are kept by value.  The mutex is not
    modelled: every method is one atomic step. *)
Record t : Type := mk {
  runs : gmap string WorkflowRun.t;
  stepExecutions : gmap string (gmap string StepExecution.t);
  stepOutputs : gmap string (gmap string bytes);
  state : gmap string (gmap string bytes)
}.

(** [NewMemoryStore]. *)
Definition NewMemoryStore : t := mk ∅ ∅ ∅ ∅.

(** *** Workflow run operations *)

Definition CreateRun (s : t) (run : WorkflowRun.t) : t * option error :=
  let id := WorkflowRun.RunID run in
  match runs s !! id with
  | Some _ =>
      (s, Some (Errorf ("workflow run " +:+ id +:+ " already exists")))
  | None =>
      (mk (<[id := deepCopyRun run]> (runs s))
          (<[id := ∅]> (stepExecutions s))
          (<[id := ∅]> (stepOutputs s))
          (<[id := ∅]> (state s)),
       None)
  end.

Definition GetRun (s : t) (runID : string) : result WorkflowRun.t :=
  match runs s !! runID with
  | None => Err ErrRunNotFound
  | Some run => Ok (deepCopyRun run)
  end.

Definition UpdateRun (s : t) (run : WorkflowRun.t) : t * option error :=
  let id := WorkflowRun.RunID run in
  match runs s !! id with
  | None => (s, Some ErrRunNotFound)
  | Some _ =>
      (mk (<[id := deepCopyRun run]> (runs s))
          (stepExecutions s) (stepOutputs s) (state s),
       None)
  end.

Definition UpdateRunStatus (s : t) (runID : string) (status : RunStatus)
    (err : option WorkflowError.t) : t * option error :=
  match runs s !! runID with
  | None => (s, Some ErrRunNotFound)
  | Some run =>
      let run1 := WorkflowRun.set_Status status run in
      let run2 :=
        match err with
        | Some e => WorkflowRun.set_Error (Some (copyWorkflowError e)) run1
        | None => WorkflowRun.set_Error None run1
        end in
      (mk (<[runID := run2]> (runs s))
          (stepExecutions s) (stepOutputs s) (state s),
       None)
  end.

(** *** Step execution operations *)

Definition CreateStepExecution (s : t) (exec : StepExecution.t)
    : t * option error :=
  let runID := StepExecution.RunID exec in
  let runExecs := default ∅ (stepExecutions s !! runID) in
  (mk (runs s)
      (<[runID :=
           <[StepExecution.StepID exec := deepCopyStepExecution exec]> runExecs]>
         (stepExecutions s))
      (stepOutputs s) (state s),
   None).

Definition GetStepExecution (s : t) (runID stepID : string)
    : result StepExecution.t :=
  match stepExecutions s !! runID with
  | None => Err ErrStepExecutionNotFound
  | Some runExecs =>
      match runExecs !! stepID with
      | None => Err ErrStepExecutionNotFound
      | Some exec => Ok (deepCopyStepExecution exec)
      end
  end.

Definition UpdateStepExecution (s : t) (exec : StepExecution.t)
    : t * option error :=
  let runID := StepExecution.RunID exec in
  match stepExecutions s !! runID with
  | None => (s, Some ErrStepExecutionNotFound)
  | Some runExecs =>
      (mk (runs s)
          (<[runID :=
               <[StepExecution.StepID exec := deepCopyStepExecution exec]>
                 runExecs]>
             (stepExecutions s))
          (stepOutputs s) (state s),
       None)
  end.

(** The comparison handed to [sort.Slice]. *)
Definition lessByIndex (a b : StepExecution.t) : bool :=
  StepExecution.ExecutionIndex a <? StepExecution.ExecutionIndex b.

(** The [range] over the run's map visits its entries in an order Go
    leaves open; the model takes the order of [map_to_list]. *)
Definition ListStepExecutions (s : t) (runID : string)
    : result (list StepExecution.t) :=
  match stepExecutions s !! runID with
  | None => Ok []
  | Some runExecs =>
      let executions :=
        (fun kv => deepCopyStepExecution kv.2) <$> map_to_list runExecs in
      Ok (sort_Slice lessByIndex executions)
  end.

(** *** Step output operations *)

Definition SaveStepOutput (s : t) (runID stepID : string) (output : bytes)
    : t * option error :=
  let runOutputs := default ∅ (stepOutputs s !! runID) in
  (mk (runs s) (stepExecutions s)
      (<[runID := <[stepID := copyBytes output]> runOutputs]> (stepOutputs s))
      (state s),
   None).

Definition LoadStepOutput (s : t) (runID stepID : string) : result bytes :=
  match stepOutputs s !! runID with
  | None => Err ErrStepOutputNotFound
  | Some runOutputs =>
      match runOutputs !! stepID with
      | None => Err ErrStepOutputNotFound
      | Some output => Ok (copyBytes output)
      end
  end.

(** *** State operations *)

Definition SaveState (s : t) (runID key : string) (value : bytes)
    : t * option error :=
  let runState := default ∅ (state s !! runID) in
  (mk (runs s) (stepExecutions s) (stepOutputs s)
      (<[runID := <[key := copyBytes value]> runState]> (state s)),
   None).

Definition LoadState (s : t) (runID key : string) : result bytes :=
  match state s !! runID with
  | None => Err ErrStateNotFound
  | Some runState =>
      match runState !! key with
      | None => Err ErrStateNotFound
      | Some value => Ok (copyBytes value)
      end
  end.

Definition DeleteState (s : t) (runID key : string) : t * option error :=
  match state s !! runID with
  | None => (s, None)
  | Some runState =>
      (mk (runs s) (stepExecutions s) (stepOutputs s)
          (<[runID := delete key runState]> (state s)),
       None)
  end.

Definition GetAllState (s : t) (runID : string)
    : result (gmap string bytes) :=
  match state s !! runID with
  | None => Ok ∅
  | Some runState => Ok (copyMapWith copyBytes runState)
  end.

(** *** The methods that take the write lock, as data *)

Inductive op : Type :=
  | OpCreateRun (run : WorkflowRun.t)
  | OpUpdateRun (run : WorkflowRun.t)
  | OpUpdateRunStatus (runID : string) (status : RunStatus)
      (err : option WorkflowError.t)
  | OpCreateStepExecution (exec : StepExecution.t)
  | OpUpdateStepExecution (exec : StepExecution.t)
  | OpSaveStepOutput (runID stepID : string) (output : bytes)
  | OpSaveState (runID key : string) (value : bytes)
  | OpDeleteState (runID key : string).

Definition step (s : t) (o : op) : t * option error :=
  match o with
  | OpCreateRun run => CreateRun s run
  | OpUpdateRun run => UpdateRun s run
  | OpUpdateRunStatus runID status err => UpdateRunStatus s runID status err
  | OpCreateStepExecution exec => CreateStepExecution s exec
  | OpUpdateStepExecution exec => UpdateStepExecution s exec
  | OpSaveStepOutput runID stepID output => SaveStepOutput s runID stepID output
  | OpSaveState runID key value => SaveState s runID key value
  | OpDeleteState runID key => DeleteState s runID key
  end.

(** A sequence of calls; the errors they return are dropped, as a
    caller that ignores them would. *)
Definition exec (s : t) (os : list op) : t :=
  foldl (fun s o => (step s o).1) s os.

(** The status of a run as the store holds it. *)
Definition statusOf (s : t) (runID : string) : option RunStatus :=
  WorkflowRun.Status <$> runs s !! runID.

(** What the store holds under a key of one of its nested maps. *)
Definition storedStepExecution (s : t) (runID stepID : string)
    : option StepExecution.t :=
  stepExecutions s !! runID ≫= (fun m => m !! stepID).

Definition storedStepOutput (s : t) (runID stepID : string) : option bytes :=
  stepOutputs s !! runID ≫= (fun m => m !! stepID).

Definition storedState (s : t) (runID key : string) : option bytes :=
  state s !! runID ≫= (fun m => m !! key).

(** Every step execution is filed under the run id and step id it
    carries. *)
Definition keyed (s : t) : Prop :=
  forall runID m stepID e,
    stepExecutions s !! runID = Some m -> m !! stepID = Some e ->
    StepExecution.RunID e = runID /\ StepExecution.StepID e = stepID.

(** Whether a call writes the status of run [runID]: [UpdateRunStatus]
    on it, or [UpdateRun] with a record that carries its id. *)
Definition writesStatusOf (runID : string) (o : op) : bool :=
  match o with
  | OpUpdateRun run => String.eqb (WorkflowRun.RunID run) runID
  | OpUpdateRunStatus id _ _ => String.eqb id runID
  | _ => false
  end.

End MemoryStore.

(** ** encoding/json *)

(** [json.Marshal(v)] and [json.Unmarshal(data, &v)] at a Go type [V]. *)
Class JSON (V : Type) : Type := {
  json_Marshal : V -> result bytes;
  json_Unmarshal : bytes -> result V
}.

(** A value round-trips through JSON when decoding its encoding gives it
    back. *)
Definition json_roundtrips {V} `{JSON V} (v : V) : Prop :=
  exists data, json_Marshal v = Ok data /\ json_Unmarshal data = Ok v.

(** The encoding of a Go [bool]: the literals [true] and [false].
    Decoding is given on the two literals as [json.Marshal] writes them;
    any other input is reported as an error. *)
Definition lit (s : string) : bytes := String.list_byte_of_string s.

#[export] Instance JSON_bool : JSON bool := {
  json_Marshal b := Ok (lit (if b then "true" else "false"));
  json_Unmarshal d :=
    if decide (d = lit "true") then Ok true
    else if decide (d = lit "false") then Ok false
    else Err (Errorf "json: cannot unmarshal into Go value of type bool")
}.

(** The part of the package that decides what [json.Marshal] writes for
    a [json.RawMessage]: the scanner that checks the syntax of a JSON
    text, and the compaction built on it. *)
Module json.

(** *** The scanner (scanner.go) *)

(** The codes a step of the scanner returns, in the order of their
    declaration: [appendCompact] tests [v >= scanSkipSpace]. *)
Inductive scanCode : Type :=
  | scanContinue
  | scanBeginLiteral
  | scanBeginObject
  | scanObjectKey
  | scanObjectValue
  | scanEndObject
  | scanBeginArray
  | scanArrayValue
  | scanEndArray
  | scanSkipSpace
  | scanEnd
  | scanError.

(** [v >= scanSkipSpace]. *)
Definition atLeastSkipSpace (v : scanCode) : bool :=
  match v with
  | scanSkipSpace | scanEnd | scanError => true
  | _ => false
  end.

Inductive parseState : Type :=
  | parseObjectKey
  | parseObjectValue
  | parseArrayValue.

(** The step functions a scanner can be in; [s.step] holds one of them. *)
Inductive stepFn : Type :=
  | StateBeginValueOrEmpty
  | StateBeginValue
  | StateBeginStringOrEmpty
  | StateBeginString
  | StateEndValue
  | StateEndTop
  | StateInString
  | StateInStringEsc
  | StateInStringEscU
  | StateInStringEscU1
  | StateInStringEscU12
  | StateInStringEscU123
  | StateNeg
  | State1
  | State0
  | StateDot
  | StateDot0
  | StateE
  | StateESign
  | StateE0
  | StateT
  | StateTr
  | StateTru
  | StateF
  | StateFa
  | StateFal
  | StateFals
  | StateN
  | StateNu
  | StateNul
  | StateError.

(** The scanner.  [parseState] is a stack; its top, the last element of
    the Go slice, is the head of the list.  [err] keeps the context of
    the syntax error, if one has been met. *)
Record scanner : Type := mkScanner {
  step : stepFn;
  endTop : bool;
  parseStack : list parseState;
  err : option string
}.

Definition setStep (f : stepFn) (s : scanner) : scanner :=
  mkScanner f (endTop s) (parseStack s) (err s).

Definition setStack (st : list parseState) (s : scanner) : scanner :=
  mkScanner (step s) (endTop s) st (err s).

(** [newScanner] followed by [reset]. *)
Definition newScanner : scanner := mkScanner StateBeginValue false [] None.

Definition maxNestingDepth : Z := 10000.

(** [s.error(c, context)]. *)
Definition scanner_error (s : scanner) (context : string)
    : scanner * scanCode :=
  (mkScanner StateError (endTop s) (parseStack s)
     (Some ("invalid character " +:+ context)),
   scanError).

Definition pushParseState (s : scanner) (newParseState : parseState)
    (successState : scanCode) : scanner * scanCode :=
  let s := setStack (newParseState :: parseStack s) s in
  if Z.of_nat (length (parseStack s)) <=? maxNestingDepth
  then (s, successState)
  else scanner_error s "exceeded max depth".

Definition popParseState (s : scanner) : scanner :=
  match tail (parseStack s) with
  | [] => mkScanner StateEndTop true [] (err s)
  | rest => mkScanner StateEndValue (endTop s) rest (err s)
  end.

(** The byte of a one-character literal. *)
Definition ch (s : string) : Byte.byte :=
  match lit s with c :: _ => c | [] => Byte.x00 end.

Definition isByte (c d : Byte.byte) : bool := Byte.eqb c d.

(** [lo <= c && c <= hi]. *)
Definition between (lo hi c : Byte.byte) : bool :=
  ((Byte.to_N lo <=? Byte.to_N c) && (Byte.to_N c <=? Byte.to_N hi))%N.

Definition quote : Byte.byte := Byte.x22.
Definition backslash : Byte.byte := Byte.x5c.

Definition isSpace (c : Byte.byte) : bool :=
  isByte c (ch " ") || isByte c Byte.x09 || isByte c Byte.x0d || isByte c Byte.x0a.

Definition isDigit (c : Byte.byte) : bool := between (ch "0") (ch "9") c.

Definition isHex (c : Byte.byte) : bool :=
  isDigit c || between (ch "a") (ch "f") c || between (ch "A") (ch "F") c.

(** [stateEndTop]: only space may follow the top-level value.  Another
    byte is recorded as an error, to be reported by the next step. *)
Definition stateEndTop (s : scanner) (c : Byte.byte) : scanner * scanCode :=
  if negb (isSpace c)
  then ((scanner_error s "after top-level value").1, scanEnd)
  else (s, scanEnd).

Definition stateEndValue (s : scanner) (c : Byte.byte) : scanner * scanCode :=
  match parseStack s with
  | [] => stateEndTop (mkScanner StateEndTop true [] (err s)) c
  | ps :: rest =>
      if isSpace c then (setStep StateEndValue s, scanSkipSpace)
      else
        match ps with
        | parseObjectKey =>
            if isByte c (ch ":") then
              (setStep StateBeginValue (setStack (parseObjectValue :: rest) s),
               scanObjectKey)
            else scanner_error s "after object key"
        | parseObjectValue =>
            if isByte c (ch ",") then
              (setStep StateBeginString (setStack (parseObjectKey :: rest) s),
               scanObjectValue)
            else if isByte c (ch "}") then (popParseState s, scanEndObject)
            else scanner_error s "after object key:value pair"
        | parseArrayValue =>
            if isByte c (ch ",") then (setStep StateBeginValue s, scanArrayValue)
            else if isByte c (ch "]") then (popParseState s, scanEndArray)
            else scanner_error s "after array element"
        end
  end.

Definition stateBeginValue (s : scanner) (c : Byte.byte)
    : scanner * scanCode :=
  if isSpace c then (s, scanSkipSpace)
  else if isByte c (ch "{") then
    pushParseState (setStep StateBeginStringOrEmpty s) parseObjectKey
      scanBeginObject
  else if isByte c (ch "[") then
    pushParseState (setStep StateBeginValueOrEmpty s) parseArrayValue
      scanBeginArray
  else if isByte c quote then (setStep StateInString s, scanBeginLiteral)
  else if isByte c (ch "-") then (setStep StateNeg s, scanBeginLiteral)
  else if isByte c (ch "0") then (setStep State0 s, scanBeginLiteral)
  else if isByte c (ch "t") then (setStep StateT s, scanBeginLiteral)
  else if isByte c (ch "f") then (setStep StateF s, scanBeginLiteral)
  else if isByte c (ch "n") then (setStep StateN s, scanBeginLiteral)
  else if between (ch "1") (ch "9") c then (setStep State1 s, scanBeginLiteral)
  else scanner_error s "looking for beginning of value".

Definition stateBeginValueOrEmpty (s : scanner) (c : Byte.byte)
    : scanner * scanCode :=
  if isSpace c then (s, scanSkipSpace)
  else if isByte c (ch "]") then stateEndValue s c
  else stateBeginValue s c.

Definition stateBeginString (s : scanner) (c : Byte.byte)
    : scanner * scanCode :=
  if isSpace c then (s, scanSkipSpace)
  else if isByte c quote then (setStep StateInString s, scanBeginLiteral)
  else scanner_error s "looking for beginning of object key string".

(** [stateBeginStringOrEmpty]; the stack is never empty here, this state
    being entered only by the push for an opening brace. *)
Definition stateBeginStringOrEmpty (s : scanner) (c : Byte.byte)
    : scanner * scanCode :=
  if isSpace c then (s, scanSkipSpace)
  else if isByte c (ch "}") then
    stateEndValue (setStack (parseObjectValue :: tail (parseStack s)) s) c
  else stateBeginString s c.

Definition stateInString (s : scanner) (c : Byte.byte) : scanner * scanCode :=
  if isByte c quote then (setStep StateEndValue s, scanContinue)
  else if isByte c backslash then (setStep StateInStringEsc s, scanContinue)
  else if (Byte.to_N c <? 32)%N then scanner_error s "in string literal"
  else (s, scanContinue).

Definition stateInStringEsc (s : scanner) (c : Byte.byte)
    : scanner * scanCode :=
  if isByte c (ch "b") || isByte c (ch "f") || isByte c (ch "n") || isByte c (ch "r")
     || isByte c (ch "t") || isByte c backslash || isByte c (ch "/") || isByte c quote
  then (setStep StateInString s, scanContinue)
  else if isByte c (ch "u") then (setStep StateInStringEscU s, scanContinue)
  else scanner_error s "in string escape code".

(** [stateInStringEscU] and the three states after it: a hexadecimal
    digit leads to [next]. *)
Definition stateInStringEscHex (next : stepFn) (s : scanner) (c : Byte.byte)
    : scanner * scanCode :=
  if isHex c then (setStep next s, scanContinue)
  else scanner_error s "in \u hexadecimal character escape".

Definition state0 (s : scanner) (c : Byte.byte) : scanner * scanCode :=
  if isByte c (ch ".") then (setStep StateDot s, scanContinue)
  else if isByte c (ch "e") || isByte c (ch "E") then (setStep StateE s, scanContinue)
  else stateEndValue s c.

Definition state1 (s : scanner) (c : Byte.byte) : scanner * scanCode :=
  if isDigit c then (setStep State1 s, scanContinue) else state0 s c.

Definition stateNeg (s : scanner) (c : Byte.byte) : scanner * scanCode :=
  if isByte c (ch "0") then (setStep State0 s, scanContinue)
  else if between (ch "1") (ch "9") c then (setStep State1 s, scanContinue)
  else scanner_error s "in numeric literal".

Definition stateDot (s : scanner) (c : Byte.byte) : scanner * scanCode :=
  if isDigit c then (setStep StateDot0 s, scanContinue)
  else scanner_error s "after decimal point in numeric literal".

Definition stateDot0 (s : scanner) (c : Byte.byte) : scanner * scanCode :=
  if isDigit c then (s, scanContinue)
  else if isByte c (ch "e") || isByte c (ch "E") then (setStep StateE s, scanContinue)
  else stateEndValue s c.

Definition stateESign (s : scanner) (c : Byte.byte) : scanner * scanCode :=
  if isDigit c then (setStep StateE0 s, scanContinue)
  else scanner_error s "in exponent of numeric literal".

Definition stateE (s : scanner) (c : Byte.byte) : scanner * scanCode :=
  if isByte c (ch "+") || isByte c (ch "-") then (setStep StateESign s, scanContinue)
  else stateESign s c.

Definition stateE0 (s : scanner) (c : Byte.byte) : scanner * scanCode :=
  if isDigit c then (s, scanContinue) else stateEndValue s c.

(** The states inside the literals [true], [false] and [null]: the
    expected byte leads to [next]. *)
Definition stateInLiteral (expected : Byte.byte) (next : stepFn)
    (context : string) (s : scanner) (c : Byte.byte) : scanner * scanCode :=
  if isByte c expected then (setStep next s, scanContinue)
  else scanner_error s context.

(** [s.step(s, c)]. *)
Definition scanner_step (s : scanner) (c : Byte.byte) : scanner * scanCode :=
  match step s with
  | StateBeginValueOrEmpty => stateBeginValueOrEmpty s c
  | StateBeginValue => stateBeginValue s c
  | StateBeginStringOrEmpty => stateBeginStringOrEmpty s c
  | StateBeginString => stateBeginString s c
  | StateEndValue => stateEndValue s c
  | StateEndTop => stateEndTop s c
  | StateInString => stateInString s c
  | StateInStringEsc => stateInStringEsc s c
  | StateInStringEscU => stateInStringEscHex StateInStringEscU1 s c
  | StateInStringEscU1 => stateInStringEscHex StateInStringEscU12 s c
  | StateInStringEscU12 => stateInStringEscHex StateInStringEscU123 s c
  | StateInStringEscU123 => stateInStringEscHex StateInString s c
  | StateNeg => stateNeg s c
  | State1 => state1 s c
  | State0 => state0 s c
  | StateDot => stateDot s c
  | StateDot0 => stateDot0 s c
  | StateE => stateE s c
  | StateESign => stateESign s c
  | StateE0 => stateE0 s c
  | StateT => stateInLiteral (ch "r") StateTr "in literal true (expecting 'r')" s c
  | StateTr => stateInLiteral (ch "u") StateTru "in literal true (expecting 'u')" s c
  | StateTru => stateInLiteral (ch "e") StateEndValue "in literal true (expecting 'e')" s c
  | StateF => stateInLiteral (ch "a") StateFa "in literal false (expecting 'a')" s c
  | StateFa => stateInLiteral (ch "l") StateFal "in literal false (expecting 'l')" s c
  | StateFal => stateInLiteral (ch "s") StateFals "in literal false (expecting 's')" s c
  | StateFals => stateInLiteral (ch "e") StateEndValue "in literal false (expecting 'e')" s c
  | StateN => stateInLiteral (ch "u") StateNu "in literal null (expecting 'u')" s c
  | StateNu => stateInLiteral (ch "l") StateNul "in literal null (expecting 'l')" s c
  | StateNul => stateInLiteral (ch "l") StateEndValue "in literal null (expecting 'l')" s c
  | StateError => (s, scanError)
  end.

(** [s.eof()]. *)
Definition eof (s : scanner) : scanner * scanCode :=
  match err s with
  | Some _ => (s, scanError)
  | None =>
      if endTop s then (s, scanEnd)
      else
        let s := (scanner_step s (ch " ")).1 in
        if endTop s then (s, scanEnd)
        else
          (match err s with
           | None => mkScanner (step s) (endTop s) (parseStack s)
                       (Some "unexpected end of JSON input")
           | Some _ => s
           end,
           scanError)
  end.

(** *** Compaction (indent.go) *)

(** [hex[n]], a digit of [0123456789abcdef]. *)
Definition hex (n : N) : Byte.byte :=
  nth (N.to_nat n) (lit "0123456789abcdef") (ch "0").

(** [src[lo:hi]] under the guard [lo < hi] that every use of it has. *)
Definition slice (src : bytes) (lo hi : nat) : bytes :=
  if (lo <? hi)%nat then take (hi - lo) (drop lo src) else [].

(** The loop of [appendCompact] over the bytes [rest] of [src] from
    index [i] on.  It returns [dst], [start] and the scanner as they are
    when the loop is left, by running out of bytes or by [break]. *)
Fixpoint compactLoop (escape : bool) (src rest : bytes) (i : nat)
    (dst : bytes) (start : nat) (scan : scanner) : bytes * nat * scanner :=
  match rest with
  | [] => (dst, start, scan)
  | c :: rest =>
      let '(dst, start) :=
        if escape && (isByte c (ch "<") || isByte c (ch ">") || isByte c (ch "&")) then
          (dst ++ slice src start i
               ++ [backslash; (ch "u"); (ch "0"); (ch "0");
                   hex (Byte.to_N c / 16); hex (Byte.to_N c mod 16)],
           S i)
        else (dst, start) in
      let '(dst, start) :=
        match rest with
        | c1 :: c2 :: _ =>
            if escape && isByte c Byte.xe2 && isByte c1 Byte.x80
               && (isByte c2 Byte.xa8 || isByte c2 Byte.xa9) then
              (dst ++ slice src start i
                   ++ [backslash; (ch "u"); (ch "2"); (ch "0"); (ch "2");
                       hex (Byte.to_N c2 mod 16)],
               (i + 3)%nat)
            else (dst, start)
        | _ => (dst, start)
        end in
      let '(scan, v) := scanner_step scan c in
      if atLeastSkipSpace v then
        match v with
        | scanError => (dst, start, scan)
        | _ => compactLoop escape src rest (S i)
                 (dst ++ slice src start i) (S i) scan
        end
      else compactLoop escape src rest (S i) dst start scan
  end.

(** [appendCompact(dst, src, escape)] on an empty [dst]: [src] without
    its insignificant space and, under [escape], with the characters
    that trouble HTML written as [\u] escapes; an error when [src] is not
    one valid JSON value. *)
Definition appendCompact (src : bytes) (escape : bool) : result bytes :=
  let '(dst, start, scan) := compactLoop escape src src 0 [] 0 newScanner in
  let '(scan, v) := eof scan in
  match v with
  | scanError =>
      Err (Errorf (default "" (err scan)))
  | _ => Ok (dst ++ slice src start (length src))
  end.

End json.

(** *** A run and its JSON document *)

Module RunDocument.
(** The JSON object that [json.Marshal] writes for a [WorkflowRun], by
    its members, named by their keys.  A member whose field is tagged
    [omitempty] may be missing.  The members [input], [output] and
    [context] hold raw JSON text; so does [error], the encoding of a
    [WorkflowError].  The other members are kept as the values they
    spell: strings are taken to be valid UTF-8, times to lie in the
    years 0 to 9999 and [Progress] to be finite, which [json.Marshal]
    writes and [json.Unmarshal] reads back as they are. *)
Record t : Type := mk {
  runId : string;
  workflowId : string;
  workflowVersion : string;
  status : RunStatus;
  progress : Z * Z;
  createdAt : Time;
  startedAt : option Time;               (* omitempty *)
  completedAt : option Time;             (* omitempty *)
  updatedAt : Time;
  input : option bytes;                  (* omitempty *)
  output : option bytes;                 (* omitempty *)
  error : option bytes;                  (* omitempty *)
  resourceId : option string;            (* omitempty *)
  tags : option (gmap string string);    (* omitempty *)
  context : option bytes                 (* omitempty *)
}.
End RunDocument.

(** A [json.RawMessage] field tagged [omitempty]: left out when its
    length is 0 (nil or empty); otherwise [MarshalJSON] returns the
    bytes themselves and the encoder writes their compact form, or
    fails when they are not valid JSON. *)
Definition marshalRawMessage (m : option bytes) : result (option bytes) :=
  match m with
  | None => Ok None
  | Some [] => Ok None
  | Some b =>
      match json.appendCompact b true with
      | Ok c => Ok (Some c)
      | Err e =>
          Err (ErrWrap
                 "json: error calling MarshalJSON for type json.RawMessage" e)
      end
  end.

(** A string field tagged [omitempty]: left out when empty. *)
Definition marshalOmitEmptyString (s : string) : option string :=
  if decide (s = "") then None else Some s.

(** A map field tagged [omitempty]: left out when its length is 0. *)
Definition marshalOmitEmptyMap (m : option (gmap string string))
    : option (gmap string string) :=
  match m with
  | None => None
  | Some tags => if decide (size tags = 0%nat) then None else Some tags
  end.

Section RunJSON.
(** [WorkflowError] is declared in a file that is not part of the
    sources at hand; its encoding is left to a parameter. *)
Context `{JSON WorkflowError.t}.

(** [*WorkflowError] tagged [omitempty]: left out when nil. *)
Definition marshalError (e : option WorkflowError.t) : result (option bytes) :=
  match e with
  | None => Ok None
  | Some we =>
      match json_Marshal we with
      | Ok d => Ok (Some d)
      | Err er => Err er
      end
  end.

(** [json.Marshal(run)] for a [*WorkflowRun] that is not nil.  The
    fields are written in the order of their declaration. *)
Definition json_Marshal_run (run : WorkflowRun.t) : result RunDocument.t :=
  match marshalRawMessage (WorkflowRun.Input run) with
  | Err e => Err e
  | Ok input =>
  match marshalRawMessage (WorkflowRun.Output run) with
  | Err e => Err e
  | Ok output =>
  match marshalError (WorkflowRun.Error run) with
  | Err e => Err e
  | Ok error =>
  match marshalRawMessage (WorkflowRun.Context run) with
  | Err e => Err e
  | Ok context =>
      Ok (RunDocument.mk
            (WorkflowRun.RunID run) (WorkflowRun.WorkflowID run)
            (WorkflowRun.WorkflowVersion run) (WorkflowRun.Status run)
            (WorkflowRun.Progress run) (WorkflowRun.CreatedAt run)
            (WorkflowRun.StartedAt run) (WorkflowRun.CompletedAt run)
            (WorkflowRun.UpdatedAt run) input output error
            (marshalOmitEmptyString (WorkflowRun.ResourceID run))
            (marshalOmitEmptyMap (WorkflowRun.Tags run)) context)
  end end end end.

(** [var run WorkflowRun; json.Unmarshal(data, &run)] on such a
    document: a member that is missing leaves the zero value of its
    field, a raw member is stored as the text it has in the document. *)
Definition json_Unmarshal_run (doc : RunDocument.t) : result WorkflowRun.t :=
  let decoded (error : option WorkflowError.t) :=
    WorkflowRun.mk
      (RunDocument.runId doc) (RunDocument.workflowId doc)
      (RunDocument.workflowVersion doc) (RunDocument.status doc)
      (RunDocument.progress doc) (RunDocument.createdAt doc)
      (RunDocument.startedAt doc) (RunDocument.completedAt doc)
      (RunDocument.updatedAt doc) (RunDocument.input doc)
      (RunDocument.output doc) error
      (default "" (RunDocument.resourceId doc))
      (RunDocument.tags doc) (RunDocument.context doc) in
  match RunDocument.error doc with
  | None => Ok (decoded None)
  | Some d =>
      match json_Unmarshal d with
      | Ok we => Ok (decoded (Some we))
      | Err er => Err er
      end
  end.



End RunJSON.

(** ** The SQL store (store/libsql.go) *)

Module LibSQLStore.

(** A row of [step_executions].  The [data] column holds the JSON
    document of the record; it is kept as the record the document
    describes.  [execution_index] and [status] are columns of their own,
    written next to the document. *)
Record stepExecutionRow : Type := mkRow {
  execution_index : Z;
  status : string;
  data : StepExecution.t
}.

(** A row of [workflow_runs], keyed by [run_id].  The [data] column
    holds the JSON document of the run; the other columns are written
    next to it. *)
Record runRow : Type := mkRunRow {
  run_workflow_id : string;
  run_status : string;
  run_created_at : Time;
  run_updated_at : Time;
  run_resource_id : string;
  run_data : RunDocument.t
}.

(** The database behind [s.db]: the four tables of the schema, keyed by
    their primary key [run_id], [(run_id, step_id)] or [(run_id, key)],
    and whether the handle has been closed.  A closed handle fails every
    statement; that is the one database failure the model has. *)
Record t : Type := mk {
  closed : bool;
  workflow_runs : gmap string runRow;
  step_executions : gmap (string * string) stepExecutionRow;
  step_outputs : gmap (string * string) bytes;
  workflow_state : gmap (string * string) bytes
}.

(** A store on a freshly initialised database. *)
Definition NewLibSQLStore : t := mk false ∅ ∅ ∅ ∅.

(** [Close]. *)
Definition Close (s : t) : t * option error :=
  (mk true (workflow_runs s) (step_executions s) (step_outputs s)
      (workflow_state s),
   None).

(** *** Workflow runs *)

(** The two run methods whose results are stated below.  [UpdateRun],
    [UpdateRunStatus] and [ListRuns] rewrite and query the same table;
    they are outside the model. *)
Section Runs.
Context `{JSON WorkflowError.t}.

(** [json.Marshal], then [INSERT INTO workflow_runs ...]: a second row
    with the same [run_id] violates the primary key. *)
Definition CreateRun (s : t) (run : WorkflowRun.t) : t * option error :=
  match json_Marshal_run run with
  | Err e => (s, Some (ErrWrap "failed to marshal run" e))
  | Ok data =>
      if closed s then
        (s, Some (ErrWrap "failed to create run" ErrSqlDatabaseClosed))
      else
        match workflow_runs s !! WorkflowRun.RunID run with
        | Some _ =>
            (s, Some (ErrWrap "failed to create run"
                        (Errorf "UNIQUE constraint failed")))
        | None =>
            (mk (closed s)
                (<[WorkflowRun.RunID run :=
                     mkRunRow (WorkflowRun.WorkflowID run)
                              (WorkflowRun.Status run)
                              (WorkflowRun.CreatedAt run)
                              (WorkflowRun.UpdatedAt run)
                              (WorkflowRun.ResourceID run) data]>
                   (workflow_runs s))
                (step_executions s) (step_outputs s) (workflow_state s),
             None)
        end
  end.

(** [SELECT data FROM workflow_runs WHERE run_id = ?], then
    [json.Unmarshal]. *)
Definition GetRun (s : t) (runID : string) : result WorkflowRun.t :=
  if closed s then
    Err (ErrWrap "failed to get run" ErrSqlDatabaseClosed)
  else
    match workflow_runs s !! runID with
    | None => Err ErrRunNotFound
    | Some row =>
        match json_Unmarshal_run (run_data row) with
        | Ok run => Ok run
        | Err e => Err (ErrWrap "failed to unmarshal run" e)
        end
    end.
End Runs.

(** *** Step executions *)

(** [INSERT INTO step_executions ...]: a second row with the same
    primary key violates the constraint. *)
Definition CreateStepExecution (s : t) (exec : StepExecution.t)
    : t * option error :=
  let k := (StepExecution.RunID exec, StepExecution.StepID exec) in
  if closed s then
    (s, Some (ErrWrap "failed to create step execution" ErrSqlDatabaseClosed))
  else
    match step_executions s !! k with
    | Some _ =>
        (s, Some (ErrWrap "failed to create step execution"
                    (Errorf "UNIQUE constraint failed")))
    | None =>
        (mk (closed s) (workflow_runs s)
            (<[k := mkRow (StepExecution.ExecutionIndex exec)
                          (StepExecution.Status exec) exec]>
               (step_executions s))
            (step_outputs s) (workflow_state s),
         None)
    end.

Definition GetStepExecution (s : t) (runID stepID : string)
    : result StepExecution.t :=
  if closed s then
    Err (ErrWrap "failed to get step execution" ErrSqlDatabaseClosed)
  else
    match step_executions s !! (runID, stepID) with
    | None => Err ErrStepExecutionNotFound
    | Some row => Ok (data row)
    end.

Definition lessByColumn (a b : stepExecutionRow) : bool :=
  execution_index a <? execution_index b.

(** [SELECT data FROM step_executions WHERE run_id = ? ORDER BY
    execution_index ASC]: SQL fixes the order of rows only up to rows
    with equal [execution_index]. *)
Definition ListStepExecutions (s : t) (runID : string)
    : result (list StepExecution.t) :=
  if closed s then
    Err (ErrWrap "failed to list step executions" ErrSqlDatabaseClosed)
  else
    let rows :=
      snd <$> filter (fun kv => kv.1.1 = runID)
                (map_to_list (step_executions s)) in
    Ok (data <$> sort_Slice lessByColumn rows).

(** The [execution_index] column of every row agrees with the
    [executionIndex] of the row's document, as [CreateStepExecution]
    writes them. *)
Definition coherent (s : t) : Prop :=
  forall k row,
    step_executions s !! k = Some row ->
    execution_index row = StepExecution.ExecutionIndex (data row).

(** *** Step outputs *)

(** [INSERT ... ON CONFLICT(run_id, step_id) DO UPDATE SET output_data]. *)
Definition SaveStepOutput (s : t) (runID stepID : string) (output : bytes)
    : t * option error :=
  if closed s then
    (s, Some (ErrWrap "failed to save step output" ErrSqlDatabaseClosed))
  else
    (mk (closed s) (workflow_runs s) (step_executions s)
        (<[(runID, stepID) := output]> (step_outputs s))
        (workflow_state s),
     None).

Definition LoadStepOutput (s : t) (runID stepID : string) : result bytes :=
  if closed s then
    Err (ErrWrap "failed to load step output" ErrSqlDatabaseClosed)
  else
    match step_outputs s !! (runID, stepID) with
    | None => Err ErrStepOutputNotFound
    | Some d => Ok d
    end.

(** *** Workflow state *)

Definition SaveState (s : t) (runID key : string) (value : bytes)
    : t * option error :=
  if closed s then
    (s, Some (ErrWrap "failed to save state" ErrSqlDatabaseClosed))
  else
    (mk (closed s) (workflow_runs s) (step_executions s) (step_outputs s)
        (<[(runID, key) := value]> (workflow_state s)),
     None).

Definition LoadState (s : t) (runID key : string) : result bytes :=
  if closed s then
    Err (ErrWrap "failed to load state" ErrSqlDatabaseClosed)
  else
    match workflow_state s !! (runID, key) with
    | None => Err ErrStateNotFound
    | Some v => Ok v
    end.

Definition DeleteState (s : t) (runID key : string) : t * option error :=
  if closed s then
    (s, Some (ErrWrap "failed to delete state" ErrSqlDatabaseClosed))
  else
    (mk (closed s) (workflow_runs s) (step_executions s) (step_outputs s)
        (delete (runID, key) (workflow_state s)),
     None).

(** [SELECT key, value FROM workflow_state WHERE run_id = ?], collected
    into a fresh map. *)
Definition GetAllState (s : t) (runID : string)
    : result (gmap string bytes) :=
  if closed s then
    Err (ErrWrap "failed to get all state" ErrSqlDatabaseClosed)
  else
    Ok (foldr (fun kv acc => <[kv.1.2 := kv.2]> acc) ∅
          (filter (fun kv => kv.1.1 = runID)
             (map_to_list (workflow_state s)))).

End LibSQLStore.

(** ** The SQL store of part_010 *)

(** The sources hold a second copy of the SQL store (package store as
    well, in the file part_010), over the same tables.  Its reads are
    those of store/libsql.go except for what they return when the query
    finds no row: an error made by [fmt.Errorf] that names the key. *)
Module LibSQLStore_part010.

Section Runs.
Context `{JSON WorkflowError.t}.

Definition GetRun (s : LibSQLStore.t) (runID : string)
    : result WorkflowRun.t :=
  if LibSQLStore.closed s then
    Err (ErrWrap "failed to get run" ErrSqlDatabaseClosed)
  else
    match LibSQLStore.workflow_runs s !! runID with
    | None => Err (Errorf ("run not found: " +:+ runID))
    | Some row =>
        match json_Unmarshal_run (LibSQLStore.run_data row) with
        | Ok run => Ok run
        | Err e => Err (ErrWrap "failed to unmarshal run" e)
        end
    end.
End Runs.

Definition GetStepExecution (s : LibSQLStore.t) (runID stepID : string)
    : result StepExecution.t :=
  if LibSQLStore.closed s then
    Err (ErrWrap "failed to get step execution" ErrSqlDatabaseClosed)
  else
    match LibSQLStore.step_executions s !! (runID, stepID) with
    | None =>
        Err (Errorf ("step execution not found: " +:+ runID +:+ "/"
                       +:+ stepID))
    | Some row => Ok (LibSQLStore.data row)
    end.

Definition LoadStepOutput (s : LibSQLStore.t) (runID stepID : string)
    : result bytes :=
  if LibSQLStore.closed s then
    Err (ErrWrap "failed to load step output" ErrSqlDatabaseClosed)
  else
    match LibSQLStore.step_outputs s !! (runID, stepID) with
    | None =>
        Err (Errorf ("step output not found: " +:+ runID +:+ "/" +:+ stepID))
    | Some d => Ok d
    end.

Definition LoadState (s : LibSQLStore.t) (runID key : string)
    : result bytes :=
  if LibSQLStore.closed s then
    Err (ErrWrap "failed to load state" ErrSqlDatabaseClosed)
  else
    match LibSQLStore.workflow_state s !! (runID, key) with
    | None => Err (Errorf ("state not found: " +:+ runID +:+ "/" +:+ key))
    | Some v => Ok v
    end.

End LibSQLStore_part010.

(** ** The store interface, as the accessors use it *)

(** The methods of [WorkflowStore] that [stepAccessor] and
    [stateAccessor] call.  A store is a shared mutable object: a method
    that writes returns the store it leaves behind. *)
Class WorkflowStore (S : Type) : Type := {
  GetStepExecution : S -> string -> string -> result StepExecution.t;
  LoadStepOutput : S -> string -> string -> result bytes;
  SaveState : S -> string -> string -> bytes -> S * option error;
  LoadState : S -> string -> string -> result bytes;
  DeleteState : S -> string -> string -> S * option error;
  GetAllState : S -> string -> result (gmap string bytes)
}.

#[export] Instance MemoryStore_WorkflowStore : WorkflowStore MemoryStore.t := {
  GetStepExecution := MemoryStore.GetStepExecution;
  LoadStepOutput := MemoryStore.LoadStepOutput;
  SaveState := MemoryStore.SaveState;
  LoadState := MemoryStore.LoadState;
  DeleteState := MemoryStore.DeleteState;
  GetAllState := MemoryStore.GetAllState
}.

#[export] Instance LibSQLStore_WorkflowStore : WorkflowStore LibSQLStore.t := {
  GetStepExecution := LibSQLStore.GetStepExecution;
  LoadStepOutput := LibSQLStore.LoadStepOutput;
  SaveState := LibSQLStore.SaveState;
  LoadState := LibSQLStore.LoadState;
  DeleteState := LibSQLStore.DeleteState;
  GetAllState := LibSQLStore.GetAllState
}.

(** ** Accessors (package gorkflow) *)

(** *** stepAccessor *)

(** The struct without its [store] field: the store is shared with the
    engine and with the other accessor, so every method takes the store
    as it is at the time of the call. *)
Record stepAccessor : Type := mkStepAccessor {
  sa_runID : string;
  outputCache : gmap string bytes;
  inputCache : gmap string bytes
}.

(** [newStepAccessor] / [NewStepAccessor]. *)
Definition NewStepAccessor (runID : string) : stepAccessor :=
  mkStepAccessor runID ∅ ∅.

Section StepAccessor.
Context {S : Type} `{WorkflowStore S}.

(** [GetOutput(stepID, target)]: the accessor afterwards, and what
    [target] holds or the error. *)
Definition stepAccessor_GetOutput {V} `{JSON V}
    (a : stepAccessor) (s : S) (stepID : string)
    : stepAccessor * result V :=
  match outputCache a !! stepID with
  | Some data => (a, json_Unmarshal data)
  | None =>
      match LoadStepOutput s (sa_runID a) stepID with
      | Err err =>
          (a, Err (ErrWrap ("failed to load output for step " +:+ stepID) err))
      | Ok data =>
          let a' := mkStepAccessor (sa_runID a)
                      (<[stepID := data]> (outputCache a)) (inputCache a) in
          match json_Unmarshal data with
          | Err err =>
              (a', Err (ErrWrap
                          ("failed to unmarshal output for step " +:+ stepID)
                          err))
          | Ok v => (a', Ok v)
          end
      end
  end.

Definition stepAccessor_HasOutput (a : stepAccessor) (s : S)
    (stepID : string) : bool :=
  match outputCache a !! stepID with
  | Some _ => true
  | None => is_ok (LoadStepOutput s (sa_runID a) stepID)
  end.

Definition stepAccessor_GetInput {V} `{JSON V}
    (a : stepAccessor) (s : S) (stepID : string)
    : stepAccessor * result V :=
  match inputCache a !! stepID with
  | Some data => (a, json_Unmarshal data)
  | None =>
      match GetStepExecution s (sa_runID a) stepID with
      | Err err =>
          (a, Err (ErrWrap
                     ("failed to load step execution for step " +:+ stepID)
                     err))
      | Ok exec =>
          match StepExecution.Input exec with
          | None => (a, Err (Errorf ("no input found for step " +:+ stepID)))
          | Some input =>
              let a' := mkStepAccessor (sa_runID a) (outputCache a)
                          (<[stepID := input]> (inputCache a)) in
              match json_Unmarshal input with
              | Err err =>
                  (a', Err (ErrWrap
                              ("failed to unmarshal input for step " +:+ stepID)
                              err))
              | Ok v => (a', Ok v)
              end
          end
      end
  end.

(** [stepAccessor_calls a a']: the accessor [a'] is what a sequence of
    [GetOutput] and [GetInput] calls makes of [a] ([HasOutput] leaves
    the accessor as it is).  Each call sees the store in whatever state
    it has by then, and decodes into whatever type its caller asks for. *)
Inductive stepAccessor_calls : stepAccessor -> stepAccessor -> Prop :=
  | calls_done (a : stepAccessor) : stepAccessor_calls a a
  | calls_GetOutput (V : Type) (J : JSON V) (a a1 a2 : stepAccessor)
      (s : S) (stepID : string) (r : result V) :
      stepAccessor_GetOutput a s stepID = (a1, r) ->
      stepAccessor_calls a1 a2 ->
      stepAccessor_calls a a2
  | calls_GetInput (V : Type) (J : JSON V) (a a1 a2 : stepAccessor)
      (s : S) (stepID : string) (r : result V) :
      stepAccessor_GetInput a s stepID = (a1, r) ->
      stepAccessor_calls a1 a2 ->
      stepAccessor_calls a a2.

End StepAccessor.

(** *** stateAccessor *)

Record stateAccessor : Type := mkStateAccessor {
  st_runID : string;
  cache : gmap string bytes
}.

Definition NewStateAccessor (runID : string) : stateAccessor :=
  mkStateAccessor runID ∅.

Section StateAccessor.
Context {S : Type} `{WorkflowStore S}.

(** [Set(key, value)]: the accessor and the store afterwards, and the
    error returned ([None] is [nil]). *)
Definition stateAccessor_Set {V} `{JSON V}
    (a : stateAccessor) (s : S) (key : string) (value : V)
    : stateAccessor * S * option error :=
  match json_Marshal value with
  | Err err =>
      (a, s,
       Some (ErrWrap ("failed to marshal state value for key " +:+ key) err))
  | Ok data =>
      let a' := mkStateAccessor (st_runID a) (<[key := data]> (cache a)) in
      match SaveState s (st_runID a) key data with
      | (s', Some err) =>
          (a', s', Some (ErrWrap ("failed to save state for key " +:+ key) err))
      | (s', None) => (a', s', None)
      end
  end.

Definition stateAccessor_Get {V} `{JSON V}
    (a : stateAccessor) (s : S) (key : string)
    : stateAccessor * result V :=
  match cache a !! key with
  | Some data => (a, json_Unmarshal data)
  | None =>
      match LoadState s (st_runID a) key with
      | Err err =>
          (a, Err (ErrWrap ("failed to load state for key " +:+ key) err))
      | Ok data =>
          let a' := mkStateAccessor (st_runID a) (<[key := data]> (cache a)) in
          match json_Unmarshal data with
          | Err err =>
              (a', Err (ErrWrap
                          ("failed to unmarshal state for key " +:+ key) err))
          | Ok v => (a', Ok v)
          end
      end
  end.

Definition stateAccessor_Delete
    (a : stateAccessor) (s : S) (key : string)
    : stateAccessor * S * option error :=
  let a' := mkStateAccessor (st_runID a) (delete key (cache a)) in
  match DeleteState s (st_runID a) key with
  | (s', Some err) =>
      (a', s', Some (ErrWrap ("failed to delete state for key " +:+ key) err))
  | (s', None) => (a', s', None)
  end.

Definition stateAccessor_Has (a : stateAccessor) (s : S) (key : string)
    : bool :=
  match cache a !! key with
  | Some _ => true
  | None => is_ok (LoadState s (st_runID a) key)
  end.

(** [GetAll]: the loop [for k, v := range data { a.cache[k] = v }]
    overwrites the cache with every loaded entry. *)
Definition stateAccessor_GetAll (a : stateAccessor) (s : S)
    : stateAccessor * result (gmap string bytes) :=
  match GetAllState s (st_runID a) with
  | Err err => (a, Err (ErrWrap "failed to get all state" err))
  | Ok data =>
      (mkStateAccessor (st_runID a)
         (map_fold (fun k v acc => <[k := v]> acc) (cache a) data),
       Ok data)
  end.

End StateAccessor.

(** *** What the state accessor relies on in a store *)

(** The part of the store contract that the state accessor's laws rest
    on: a state value that has been saved is loaded back, and a key that
    has been deleted is reported missing.  Both stores are shown to
    satisfy it below. *)
Class StateStoreContract (S : Type) `{WorkflowStore S} : Prop := {
  load_after_save (s s' : S) (runID key : string) (value : bytes) :
    SaveState s runID key value = (s', None) ->
    LoadState s' runID key = Ok value;
  load_after_delete (s s' : S) (runID key : string) :
    DeleteState s runID key = (s', None) ->
    LoadState s' runID key = Err ErrStateNotFound
}.

(** ** Execution config and the builder (workflow_builder.go) *)

(** A [*string]: nil, or the address of a string variable.  [==] on
    pointers compares addresses. *)
Definition ptr := positive.

Record ExecutionConfig : Type := mkExecutionConfig {
  MaxRetries : Z;
  RetryDelayMs : Z;
  RetryBackoff : string;
  TimeoutSeconds : Z;
  MaxConcurrency : Z;
  ContinueOnError : bool;
  FallbackStepID : option ptr
}.

(** [==] on the struct: field by field. *)
#[export] Instance ExecutionConfig_eq_dec : EqDecision ExecutionConfig.
Proof. solve_decision. Defined.

Definition BackoffLinear : string := "LINEAR".
Definition BackoffExponential : string := "EXPONENTIAL".
Definition BackoffNone : string := "NONE".

Definition DefaultExecutionConfig : ExecutionConfig :=
  mkExecutionConfig 3 1000 BackoffLinear 30 1 false None.

(** Modelled from the spec: the step type and the [StepExecutor]
    interface are declared in files that are not part of the sources at
    hand.  A step has an id and a name and owns its config: [GetConfig]
    returns the [ExecutionConfig] value the step holds and [SetConfig]
    stores the value it is given.  The handler, the validation settings
    and the condition play no part in [Build]. *)
Record Step : Type := mkStep {
  step_ID : string;
  step_Name : string;
  step_config : ExecutionConfig
}.

Definition Step_GetID (st : Step) : string := step_ID st.
Definition Step_GetConfig (st : Step) : ExecutionConfig := step_config st.
Definition Step_SetConfig (st : Step) (c : ExecutionConfig) : Step :=
  mkStep (step_ID st) (step_Name st) c.

Inductive NodeType : Type := NodeTypeSequential | NodeTypeParallel.

(** Modelled from the spec: the graph type is declared outside the
    sources at hand.  [Build] reads its [Nodes] map and calls its
    [Validate] method, which is a parameter below. *)
Record Graph : Type := mkGraph {
  Nodes : gmap string NodeType;
  Edges : gmap string (list string);
  EntryPoint : string
}.

(** Modelled from the spec: the workflow type is declared outside the
    sources at hand.  It maps step ids to steps (shared objects: a
    [SetConfig] on a step is seen through the map), and holds the graph
    and the default [ExecutionConfig] by value. *)
Record Workflow : Type := mkWorkflow {
  wf_id : string;
  wf_name : string;
  steps : gmap string Step;
  graph : Graph;
  config : ExecutionConfig
}.

Definition Workflow_GetConfig (w : Workflow) : ExecutionConfig := config w.
Definition Workflow_SetConfig (w : Workflow) (c : ExecutionConfig) : Workflow :=
  mkWorkflow (wf_id w) (wf_name w) (steps w) (graph w) c.
Definition Workflow_GetStep (w : Workflow) (stepID : string) : result Step :=
  match steps w !! stepID with
  | Some st => Ok st
  | None => Err (Errorf ("step " +:+ stepID +:+ " not found"))
  end.
Definition with_steps (w : Workflow) (m : gmap string Step) : Workflow :=
  mkWorkflow (wf_id w) (wf_name w) m (graph w) (config w).

Record WorkflowBuilder : Type := mkWorkflowBuilder {
  workflow : Workflow;
  lastStepIDs : list string;
  currentChain : list string
}.

(** [WithConfig]. *)
Definition WithConfig (b : WorkflowBuilder) (c : ExecutionConfig)
    : WorkflowBuilder :=
  mkWorkflowBuilder (Workflow_SetConfig (workflow b) c)
    (lastStepIDs b) (currentChain b).

Section Build.
(** [Graph.Validate]: [None] is a nil error. *)
Variable Graph_Validate : Graph -> option error.

(** The body of the loop over [graph.Nodes] in [Build], run over the
    node ids in the order given; it stops at the first id that has no
    registered step. *)
Fixpoint buildLoop (w : Workflow) (ids : list string) : Workflow * option error :=
  match ids with
  | [] => (w, None)
  | stepID :: rest =>
      match Workflow_GetStep w stepID with
      | Err _ =>
          (w, Some (Errorf ("step " +:+ stepID +:+
                            " referenced in graph but not registered")))
      | Ok st =>
          let w' :=
            if decide (Step_GetConfig st = DefaultExecutionConfig)
            then with_steps w
                   (<[stepID := Step_SetConfig st (Workflow_GetConfig w)]>
                      (steps w))
            else w in
          buildLoop w' rest
      end
  end.

(** [Build]: the builder afterwards (its workflow is updated in place)
    and the returned workflow or error.  The [range] over the node map
    visits the ids in an order Go leaves open; the model takes the
    order of [map_to_list]. *)
Definition Build (b : WorkflowBuilder) : WorkflowBuilder * result Workflow :=
  match Graph_Validate (graph (workflow b)) with
  | Some err => (b, Err (ErrWrap "invalid workflow graph" err))
  | None =>
      let ids := (map_to_list (Nodes (graph (workflow b)))).*1 in
      match buildLoop (workflow b) ids with
      | (w', Some err) =>
          (mkWorkflowBuilder w' (lastStepIDs b) (currentChain b), Err err)
      | (w', None) =>
          (mkWorkflowBuilder w' (lastStepIDs b) (currentChain b), Ok w')
      end
  end.
End Build.

(** ** Listing and counting runs (package store) *)

Module RunFilter.
(** The filter argument of [ListRuns].  Its declaration is outside the
    sources at hand; the fields are the four that [ListRuns] reads, with
    the types it uses them at ([Status] is a [*RunStatus]). *)
Record t : Type := mk {
  WorkflowID : string;
  Status : option RunStatus;
  ResourceID : string;
  Limit : Z
}.
End RunFilter.

(** The three [continue] tests of the loop in [MemoryStore.ListRuns]:
    whether the run is skipped. *)
Definition filteredOut (f : RunFilter.t) (run : WorkflowRun.t) : bool :=
  (negb (String.eqb (RunFilter.WorkflowID f) "")
   && negb (String.eqb (WorkflowRun.WorkflowID run) (RunFilter.WorkflowID f)))
  || match RunFilter.Status f with
     | Some st => negb (String.eqb (WorkflowRun.Status run) st)
     | None => false
     end
  || (negb (String.eqb (RunFilter.ResourceID f) "")
      && negb (String.eqb (WorkflowRun.ResourceID run) (RunFilter.ResourceID f))).

(** The comparison handed to [sort.Slice] by [ListRuns]:
    [runs[i].CreatedAt.After(runs[j].CreatedAt)]. *)
Definition createdAfter (a b : WorkflowRun.t) : bool :=
  WorkflowRun.CreatedAt b <? WorkflowRun.CreatedAt a.

(** [runs = runs[:filter.Limit]] under its guard. *)
Definition applyLimit {A} (limit : Z) (l : list A) : list A :=
  if (0 <? limit) && (limit <? Z.of_nat (length l))
  then take (Z.to_nat limit) l
  else l.

(** [MemoryStore.ListRuns]; the [range] over the map takes the order of
    [map_to_list]. *)
Definition MemoryStore_ListRuns (s : MemoryStore.t) (f : RunFilter.t)
    : result (list WorkflowRun.t) :=
  let kept :=
    filter (fun run => filteredOut f run = false)
      (map_to_list (MemoryStore.runs s)).*2 in
  Ok (applyLimit (RunFilter.Limit f)
        (sort_Slice createdAfter (deepCopyRun <$> kept))).

(** [MemoryStore.CountRunsByStatus]: the counting loop. *)
Definition MemoryStore_CountRunsByStatus (s : MemoryStore.t)
    (resourceID : string) (status : RunStatus) : result Z :=
  Ok (foldl
        (fun count run =>
           if String.eqb (WorkflowRun.ResourceID run) resourceID
              && String.eqb (WorkflowRun.Status run) status
           then count + 1 else count)
        0 (map_to_list (MemoryStore.runs s)).*2).

(** Two properties of the states of the in-memory store: every run is
    filed under the run id it carries, and every stored run has its
    three nested maps. *)
Definition MemoryStore_runsKeyed (s : MemoryStore.t) : Prop :=
  forall id run,
    MemoryStore.runs s !! id = Some run -> WorkflowRun.RunID run = id.

Definition MemoryStore_initialised (s : MemoryStore.t) : Prop :=
  forall id,
    is_Some (MemoryStore.runs s !! id) ->
    is_Some (MemoryStore.stepExecutions s !! id)
    /\ is_Some (MemoryStore.stepOutputs s !! id)
    /\ is_Some (MemoryStore.state s !! id).

(** ** Run context (package gorkflow) *)

(** [GetRunContext[T]]: [len(run.Context) == 0] holds for a nil and for
    an empty slice. *)
Definition GetRunContext {V} `{JSON V} (run : WorkflowRun.t) : result V :=
  match WorkflowRun.Context run with
  | None | Some [] => Err (Errorf "workflow run has no context")
  | Some ctx =>
      match json_Unmarshal ctx with
      | Err err => Err (ErrWrap "failed to unmarshal context" err)
      | Ok v => Ok v
      end
  end.

(** ** Validation (validation.go) *)

(** What [validator.Validate.Struct] returns at a Go type [V]: [None] is
    nil; [Some (true, e)] is an error [e] that is a
    [validator.ValidationErrors]; [Some (false, e)] is any other error. *)
Definition Validate (V : Type) : Type := V -> option (bool * error).

(** The struct [validationConfig]; its [validator] field is a pointer. *)
Record validationConfig (V : Type) : Type := mkValidationConfig {
  validateInput : bool;
  validateOutput : bool;
  validator : option (Validate V)
}.
Arguments mkValidationConfig {V} _ _ _.
Arguments validateInput {V} _.
Arguments validateOutput {V} _.
Arguments validator {V} _.

(** [newValidationError(errs)]: an error that unwraps to [errs]. *)
Definition newValidationError (errs : error) : error :=
  ErrWrap "validation failed" errs.

(** [validationConfig.validateStruct]; the receiver may be nil. *)
Definition validateStruct {V} (vc : option (validationConfig V)) (v : V)
    : option error :=
  match vc with
  | None => None
  | Some c =>
      match validator c with
      | None => None
      | Some check =>
          match check v with
          | None => None
          | Some (true, errs) => Some (newValidationError errs)
          | Some (false, err) => Some err
          end
      end
  end.

(** [validateInputData[T]]. *)
Definition validateInputData {V} `{JSON V} (data : bytes)
    (config : option (validationConfig V)) : result V :=
  match json_Unmarshal data with
  | Err err => Err (ErrWrap "failed to unmarshal input" err)
  | Ok input =>
      match config with
      | Some c =>
          if validateInput c then
            match validateStruct config input with
            | Some err => Err (ErrWrap "input validation failed" err)
            | None => Ok input
            end
          else Ok input
      | None => Ok input
      end
  end.

(** [validateOutputData[T]]. *)
Definition validateOutputData {V} `{JSON V} (output : V)
    (config : option (validationConfig V)) : result bytes :=
  let checked :=
    match config with
    | Some c =>
        if validateOutput c then validateStruct config output else None
    | None => None
    end in
  match checked with
  | Some err => Err (ErrWrap "output validation failed" err)
  | None =>
      match json_Marshal output with
      | Err err => Err (ErrWrap "failed to marshal output" err)
      | Ok outputBytes => Ok outputBytes
      end
  end.

(** ** SQL text helpers (store/libsql_schema.go) *)



(** ** Sample data *)

(** A run record and step executions used to exercise the stores. *)
Definition sampleRun : WorkflowRun.t :=
  WorkflowRun.mk "run-1" "wf" "1.0" RunStatusPending (0, 0) 1700000000 None
    None 1700000000 (Some (lit "[10,5]")) None None "res-1"
    (Some {["env" := "test"]}) None.

Definition sampleExec (stepID : string) (index : Z) : StepExecution.t :=
  StepExecution.mk "run-1" stepID index StepStatusPending None None 0
    (Some (lit "1")) None None 0 1700000000 1700000000.

(** The workflow config of the sequential example, a step left at the
    default config and a step configured with five retries, in a builder
    whose graph has both steps as nodes. *)
Definition sampleConfig : ExecutionConfig :=
  mkExecutionConfig 3 3000 "" 3 0 false None.

Definition customConfig : ExecutionConfig :=
  mkExecutionConfig 5 1000 BackoffLinear 30 1 false None.

Definition sampleBuilder : WorkflowBuilder :=
  mkWorkflowBuilder
    (mkWorkflow "sequential" "Simple Math Workflow"
       {[ "add" := mkStep "add" "Add" DefaultExecutionConfig;
          "fetch" := mkStep "fetch" "Fetch" customConfig ]}
       (mkGraph {[ "add" := NodeTypeSequential; "fetch" := NodeTypeSequential ]}
          {[ "add" := ["fetch"] ]} "add")
       sampleConfig)
    ["fetch"] ["add"; "fetch"].

(** A step execution whose recorded input is the JSON literal [true], a
    run that carries that literal as its context, and a validator that
    accepts [true] only. *)
Definition boolExec (stepID : string) : StepExecution.t :=
  StepExecution.mk "run-1" stepID 0 StepStatusPending None None 0
    (Some (lit "true")) None None 0 1700000000 1700000000.

Definition contextRun : WorkflowRun.t :=
  WorkflowRun.mk "run-1" "wf" "1.0" RunStatusPending (0, 0) 1700000000 None
    None 1700000000 None None None "res-1" None (Some (lit "true")).

Definition mustBeTrue : validationConfig bool :=
  mkValidationConfig true true
    (Some (fun b : bool =>
             if b then None else Some (true, Errorf "required"))).


(** * Properties *)

(** ** Machine integers and copies *)

Lemma wrap64_in_range (z : Z) : in_int64 z -> wrap64 z = z.
Proof.
  unfold in_int64, wrap64. intros Hz.
  rewrite Z.mod_small by lia. lia.
Qed.

Lemma copy_make (b : bytes) : copyBytes b = b.
Proof.
  unfold copyBytes, copy, make.
  rewrite length_replicate, Nat.min_id.
  rewrite firstn_all.
  rewrite drop_ge by (rewrite length_replicate; lia).
  apply app_nil_r.
Qed.

Lemma copyMapWith_fmap {V} (f : V -> V) (m : gmap string V) :
  copyMapWith f m = f <$> m.
Proof.
  unfold copyMapWith.
  induction m as [|k v m Hk Hfold IH] using map_first_key_ind.
  - by rewrite map_fold_empty, fmap_empty.
  - rewrite map_fold_insert_first_key by done.
    by rewrite IH, fmap_insert.
Qed.

Lemma copyMap_id {V} (m : gmap string V) : copyMap m = m.
Proof.
  change (copyMap m) with (copyMapWith (fun v => v) m).
  rewrite copyMapWith_fmap. apply map_fmap_id.
Qed.

Lemma copyWorkflowError_id (e : WorkflowError.t) : copyWorkflowError e = e.
Proof.
  destruct e as [c m [d|]]; unfold copyWorkflowError; simpl;
    by rewrite ?copyMap_id.
Qed.

Lemma deepCopyRun_id (run : WorkflowRun.t) : deepCopyRun run = run.
Proof.
  destruct run as [? ? ? ? ? ? [?|] [?|] ? [?|] [?|] [?|] ? [?|] [?|]];
    unfold deepCopyRun; simpl;
    by rewrite ?copy_make, ?copyMap_id, ?copyWorkflowError_id.
Qed.

Lemma deepCopyStepExecution_id (exec : StepExecution.t) :
  deepCopyStepExecution exec = exec.
Proof. by destruct exec. Qed.

(** ** Backoff *)

Lemma CalculateBackoff_attempt_zero (base : Z) (strategy : string) :
  CalculateBackoff base 0 strategy = Returns 0.
Proof. reflexivity. Qed.

Lemma CalculateBackoff_none (base a : Z) :
  CalculateBackoff base a "NONE" = Returns 0.
Proof. unfold CalculateBackoff. by destruct (a =? 0). Qed.

Lemma CalculateBackoff_unknown (base a : Z) (strategy : string) :
  strategy <> "EXPONENTIAL" -> strategy <> "LINEAR" -> strategy <> "NONE" ->
  CalculateBackoff base a strategy = CalculateBackoff base a "LINEAR".
Proof.
  intros He Hl Hn. unfold CalculateBackoff.
  destruct (a =? 0); [done|].
  apply String.eqb_neq in He, Hl, Hn. by rewrite He, Hl, Hn.
Qed.

Lemma CalculateBackoff_linear (base a : Z) :
  0 < base -> 1 <= a -> in_int64 (base * a * Millisecond) ->
  CalculateBackoff base a "LINEAR" = Returns (base * a * Millisecond).
Proof.
  unfold in_int64, Millisecond. intros Hb Ha Hr. unfold CalculateBackoff.
  destruct (Z.eqb_spec a 0) as [->|_]; [lia|]. simpl String.eqb. cbv iota.
  unfold mul64, Millisecond.
  rewrite (wrap64_in_range (base * 1000000)) by (unfold in_int64; nia).
  rewrite wrap64_in_range by (unfold in_int64; nia).
  f_equal. lia.
Qed.

Lemma CalculateBackoff_exponential (base a : Z) :
  0 < base -> 1 <= a -> in_int64 (base * 2 ^ (a - 1) * Millisecond) ->
  CalculateBackoff base a "EXPONENTIAL"
  = Returns (base * 2 ^ (a - 1) * Millisecond).
Proof.
  unfold in_int64, Millisecond. intros Hb Ha Hr. unfold CalculateBackoff.
  destruct (Z.eqb_spec a 0) as [->|_]; [lia|]. simpl String.eqb. cbv iota.
  assert (Hpos : 0 < 2 ^ (a - 1)) by (apply Z.pow_pos_nonneg; lia).
  assert (Hlt : 2 ^ (a - 1) < 2 ^ 63) by nia.
  assert (Hexp : a - 1 < 63).
  { apply (Z.pow_lt_mono_r_iff 2); lia. }
  unfold sub64. rewrite (wrap64_in_range (a - 1)) by (unfold in_int64; lia).
  unfold shl64. destruct (Z.ltb_spec (a - 1) 0) as [?|_]; [lia|].
  rewrite Z.shiftl_1_l.
  unfold mul64, Millisecond.
  rewrite (wrap64_in_range (2 ^ (a - 1))) by (unfold in_int64; lia).
  rewrite (wrap64_in_range (base * 1000000)) by (unfold in_int64; nia).
  rewrite wrap64_in_range by (unfold in_int64; nia).
  f_equal. lia.
Qed.

(** C3, amended.  With a positive base delay (in milliseconds) and a
    non-negative attempt: the delay is 0 for strategy NONE and for
    attempt 0 under every strategy; a strategy string other than NONE,
    LINEAR and EXPONENTIAL gives what LINEAR gives; and for an attempt of
    at least 1 the delay is base·attempt milliseconds under LINEAR and
    base·2^(attempt−1) milliseconds under EXPONENTIAL, each provided that
    this delay, counted in nanoseconds, fits the 64-bit [time.Duration]. *)
Theorem CalculateBackoff_within_duration (base a : Z) (strategy : string) :
  0 < base -> 0 <= a ->
  CalculateBackoff base a "NONE" = Returns 0
  /\ CalculateBackoff base 0 strategy = Returns 0
  /\ (1 <= a -> in_int64 (base * a * Millisecond) ->
      CalculateBackoff base a "LINEAR" = Returns (base * a * Millisecond))
  /\ (1 <= a -> in_int64 (base * 2 ^ (a - 1) * Millisecond) ->
      CalculateBackoff base a "EXPONENTIAL"
      = Returns (base * 2 ^ (a - 1) * Millisecond))
  /\ (strategy <> "EXPONENTIAL" -> strategy <> "LINEAR" ->
      strategy <> "NONE" ->
      CalculateBackoff base a strategy = CalculateBackoff base a "LINEAR")
  /\ calculateBackoff base a strategy = CalculateBackoff base a strategy.
Proof.
  intros Hb Ha. repeat split.
  - apply CalculateBackoff_none.
  - intros. by apply CalculateBackoff_linear.
  - intros. by apply CalculateBackoff_exponential.
  - apply CalculateBackoff_unknown.
Qed.

(** The default retry delay of one second, third attempt. *)
Lemma CalculateBackoff_within_duration_witness :
  CalculateBackoff 1000 3 "LINEAR" = Returns 3000000000
  /\ CalculateBackoff 1000 3 "EXPONENTIAL" = Returns 4000000000
  /\ CalculateBackoff 1000 3 "FIXED" = Returns 3000000000.
Proof.
  destruct (CalculateBackoff_within_duration 1000 3 "FIXED")
    as (_ & _ & Hlin & Hexp & Hunk & _); [lia | lia |].
  split; [|split].
  - apply Hlin; [lia | unfold in_int64; vm_compute; split; congruence].
  - apply Hexp; [lia | unfold in_int64; vm_compute; split; congruence].
  - rewrite Hunk by discriminate.
    apply Hlin; [lia | unfold in_int64; vm_compute; split; congruence].
Defined.

(** C3, as stated, fails: with the default base delay of 1000 ms the
    exponential delay of attempt 35 would be 1000·2^34 ms, which is more
    than a [time.Duration] holds; the product wraps to a negative
    duration. *)
Lemma CalculateBackoff_exponential_wraps :
  CalculateBackoff 1000 35 "EXPONENTIAL" = Returns (-1266874889709551616)
  /\ CalculateBackoff 1000 35 "EXPONENTIAL"
     <> Returns (1000 * 2 ^ (35 - 1) * Millisecond).
Proof. split; [reflexivity | discriminate]. Qed.

(** ** The in-memory store: runs *)

Lemma CreateRun_fresh (s : MemoryStore.t) (run : WorkflowRun.t) :
  MemoryStore.runs s !! WorkflowRun.RunID run = None ->
  exists s', MemoryStore.CreateRun s run = (s', None)
             /\ MemoryStore.runs s' !! WorkflowRun.RunID run = Some run.
Proof.
  intros Hnone. unfold MemoryStore.CreateRun. rewrite Hnone.
  eexists; split; [reflexivity|]. simpl.
  by rewrite lookup_insert_eq, deepCopyRun_id.
Qed.

Lemma CreateRun_ok_inv (s s' : MemoryStore.t) (run : WorkflowRun.t) :
  MemoryStore.CreateRun s run = (s', None) ->
  MemoryStore.runs s !! WorkflowRun.RunID run = None
  /\ MemoryStore.runs s' !! WorkflowRun.RunID run = Some run.
Proof.
  unfold MemoryStore.CreateRun.
  destruct (MemoryStore.runs s !! WorkflowRun.RunID run) eqn:Hl; [done|].
  intros [= <-]. simpl. by rewrite lookup_insert_eq, deepCopyRun_id.
Qed.

(** C10.  [MemoryStore.CreateRun] with a run id that the store already
    holds returns an error and the store it leaves behind is the store it
    was given: the stored run and that run's step executions, step
    outputs and state entries are as before. *)
Theorem CreateRun_existing_unchanged (s : MemoryStore.t) (run : WorkflowRun.t) :
  is_Some (MemoryStore.runs s !! WorkflowRun.RunID run) ->
  exists e, MemoryStore.CreateRun s run = (s, Some e).
Proof.
  intros [old Hold]. unfold MemoryStore.CreateRun. rewrite Hold. eauto.
Qed.

Lemma CreateRun_existing_unchanged_witness :
  let s := (MemoryStore.CreateRun MemoryStore.NewMemoryStore sampleRun).1 in
  exists e, MemoryStore.CreateRun s
              (WorkflowRun.set_Status RunStatusRunning sampleRun)
            = (s, Some e).
Proof.
  intros s.
  apply (CreateRun_existing_unchanged s
           (WorkflowRun.set_Status RunStatusRunning sampleRun)).
  exists sampleRun. vm_compute. reflexivity.
Defined.

(** ** Round trips through the stores *)

Lemma MemoryStore_save_load_output (s : MemoryStore.t) (runID stepID : string)
    (b : bytes) :
  exists s', MemoryStore.SaveStepOutput s runID stepID b = (s', None)
             /\ MemoryStore.LoadStepOutput s' runID stepID = Ok b.
Proof.
  eexists; split; [reflexivity|].
  unfold MemoryStore.LoadStepOutput. simpl.
  by rewrite !lookup_insert_eq, !copy_make.
Qed.


(** *** A run through its JSON document *)




Section RunJSONFacts.
Context `{JSON WorkflowError.t}.






End RunJSONFacts.




(** ** Reads of missing entities *)




(** The copy of the SQL store in part_010 answers the same
    four reads of a missing entity, on an open handle, with an error
    made by [fmt.Errorf] that names the key: none of the sentinels. *)
Lemma LibSQLStore_part010_missing_reads `{JSON WorkflowError.t}
    (ls : LibSQLStore.t) (runID stepID key : string) :
  LibSQLStore.closed ls = false ->
  (LibSQLStore.workflow_runs ls !! runID = None ->
   LibSQLStore_part010.GetRun ls runID
   = Err (Errorf ("run not found: " +:+ runID)))
  /\ (LibSQLStore.step_executions ls !! (runID, stepID) = None ->
      LibSQLStore_part010.GetStepExecution ls runID stepID
      = Err (Errorf ("step execution not found: " +:+ runID +:+ "/"
                       +:+ stepID)))
  /\ (LibSQLStore.step_outputs ls !! (runID, stepID) = None ->
      LibSQLStore_part010.LoadStepOutput ls runID stepID
      = Err (Errorf ("step output not found: " +:+ runID +:+ "/" +:+ stepID)))
  /\ (LibSQLStore.workflow_state ls !! (runID, key) = None ->
      LibSQLStore_part010.LoadState ls runID key
      = Err (Errorf ("state not found: " +:+ runID +:+ "/" +:+ key))).
Proof.
  intros Hopen.
  unfold LibSQLStore_part010.GetRun, LibSQLStore_part010.GetStepExecution,
    LibSQLStore_part010.LoadStepOutput, LibSQLStore_part010.LoadState.
  rewrite Hopen.
  split; [|split; [|split]]; by intros ->.
Qed.

(** ** Run status *)

Lemma statusOf_step_other (s : MemoryStore.t) (o : MemoryStore.op)
    (runID : string) (st : RunStatus) :
  MemoryStore.statusOf s runID = Some st ->
  MemoryStore.writesStatusOf runID o = false ->
  MemoryStore.statusOf (MemoryStore.step s o).1 runID = Some st.
Proof.
  unfold MemoryStore.statusOf. intros Hst Hw.
  destruct o as [run|run|id status err|exec|exec|r k b|r k b|r k]; simpl in *.
  - unfold MemoryStore.CreateRun.
    destruct (MemoryStore.runs s !! WorkflowRun.RunID run) eqn:Hl; [done|].
    simpl. destruct (decide (WorkflowRun.RunID run = runID)) as [He|Hne].
    + rewrite <- He in Hst. by rewrite Hl in Hst.
    + by rewrite lookup_insert_ne.
  - apply String.eqb_neq in Hw. unfold MemoryStore.UpdateRun.
    destruct (MemoryStore.runs s !! WorkflowRun.RunID run); [|done].
    simpl. by rewrite lookup_insert_ne.
  - apply String.eqb_neq in Hw. unfold MemoryStore.UpdateRunStatus.
    destruct (MemoryStore.runs s !! id); [|done].
    simpl. by rewrite lookup_insert_ne.
  - done.
  - unfold MemoryStore.UpdateStepExecution.
    by destruct (MemoryStore.stepExecutions s !! StepExecution.RunID exec).
  - done.
  - done.
  - unfold MemoryStore.DeleteState.
    by destruct (MemoryStore.state s !! r).
Qed.

Lemma statusOf_exec_other (os : list MemoryStore.op) (s : MemoryStore.t)
    (runID : string) (st : RunStatus) :
  MemoryStore.statusOf s runID = Some st ->
  Forall (fun o => MemoryStore.writesStatusOf runID o = false) os ->
  MemoryStore.statusOf (MemoryStore.exec s os) runID = Some st.
Proof.
  revert s. induction os as [|o os IH]; intros s Hst Hall; [done|].
  inversion Hall as [|? ? Ho Hos]; subst.
  simpl. apply IH; [|done]. by apply statusOf_step_other.
Qed.

Lemma UpdateRunStatus_overwrites (s : MemoryStore.t) (runID : string)
    (st status : RunStatus) (err : option WorkflowError.t) :
  MemoryStore.statusOf s runID = Some st ->
  exists s', MemoryStore.UpdateRunStatus s runID status err = (s', None)
             /\ MemoryStore.statusOf s' runID = Some status.
Proof.
  unfold MemoryStore.statusOf, MemoryStore.UpdateRunStatus.
  destruct (MemoryStore.runs s !! runID) as [run|]; [|done].
  intros _. eexists; split; [reflexivity|]. simpl.
  rewrite lookup_insert_eq. by destruct err.
Qed.

(** C2, amended.  Once the in-memory store holds a run with some status
    (terminal or not), no sequence of store writes other than
    [UpdateRunStatus] on that run id and [UpdateRun] with that run id
    changes the status; reads change nothing at all.  The store itself
    does not protect a terminal status: [UpdateRunStatus] on a stored run
    succeeds and sets whatever status it is given. *)
Theorem status_kept_by_other_writes (s : MemoryStore.t)
    (os : list MemoryStore.op) (runID : string) (st : RunStatus) :
  MemoryStore.statusOf s runID = Some st ->
  Forall (fun o => MemoryStore.writesStatusOf runID o = false) os ->
  MemoryStore.statusOf (MemoryStore.exec s os) runID = Some st
  /\ forall status err,
       exists s', MemoryStore.UpdateRunStatus s runID status err = (s', None)
                  /\ MemoryStore.statusOf s' runID = Some status.
Proof.
  intros Hst Hall. split.
  - by apply statusOf_exec_other.
  - intros status err. by eapply UpdateRunStatus_overwrites.
Qed.

Lemma status_kept_by_other_writes_witness :
  let s := MemoryStore.exec MemoryStore.NewMemoryStore
             [MemoryStore.OpCreateRun sampleRun;
              MemoryStore.OpUpdateRunStatus "run-1" RunStatusCompleted None] in
  MemoryStore.statusOf
    (MemoryStore.exec s
       [MemoryStore.OpCreateRun sampleRun;
        MemoryStore.OpSaveState "run-1" "total" (lit "15");
        MemoryStore.OpUpdateRunStatus "run-2" RunStatusFailed None;
        MemoryStore.OpDeleteState "run-1" "total"]) "run-1"
  = Some RunStatusCompleted.
Proof.
  intros s.
  apply (status_kept_by_other_writes s _ "run-1" RunStatusCompleted).
  - vm_compute. reflexivity.
  - repeat constructor.
Defined.

(** C2, as stated, fails on the store: a run that has reached COMPLETED
    is moved back to RUNNING, and then into FAILED, a second terminal
    status, by two further [UpdateRunStatus] calls. *)
Lemma terminal_status_overwritten :
  let s1 := MemoryStore.exec MemoryStore.NewMemoryStore
              [MemoryStore.OpCreateRun sampleRun;
               MemoryStore.OpUpdateRunStatus "run-1" RunStatusCompleted None] in
  let s2 := MemoryStore.exec s1
              [MemoryStore.OpUpdateRunStatus "run-1" RunStatusRunning None] in
  let s3 := MemoryStore.exec s2
              [MemoryStore.OpUpdateRunStatus "run-1" RunStatusFailed None] in
  MemoryStore.statusOf s1 "run-1" = Some RunStatusCompleted
  /\ RunStatus_IsTerminal RunStatusCompleted = true
  /\ MemoryStore.statusOf s2 "run-1" = Some RunStatusRunning
  /\ RunStatus_IsTerminal RunStatusRunning = false
  /\ MemoryStore.statusOf s3 "run-1" = Some RunStatusFailed
  /\ RunStatus_IsTerminal RunStatusFailed = true.
Proof. vm_compute. repeat split. Qed.

(** ** Sorting by an integer key *)

Section SortByKey.
Context {A : Type} (key : A -> Z).

Lemma sort_insert_perm (lessf : A -> A -> bool) (x : A) (l : list A) :
  sort_insert lessf x l ≡ₚ x :: l.
Proof.
  induction l as [|y l IH]; simpl; [done|].
  destruct (lessf x y); [done|].
  rewrite IH. apply perm_swap.
Qed.

Lemma sort_Slice_perm (lessf : A -> A -> bool) (l : list A) :
  sort_Slice lessf l ≡ₚ l.
Proof.
  unfold sort_Slice. induction l as [|x l IH]; simpl; [done|].
  by rewrite sort_insert_perm, IH.
Qed.

Lemma sort_insert_sorted (x : A) (l : list A) :
  StronglySorted (fun a b => key a <= key b) l ->
  StronglySorted (fun a b => key a <= key b)
    (sort_insert (fun a b => key a <? key b) x l).
Proof.
  induction 1 as [|y l Hs IH Hall]; simpl.
  - repeat constructor.
  - destruct (Z.ltb_spec (key x) (key y)) as [Hlt|Hge].
    + constructor; [by constructor|].
      constructor; [lia|].
      eapply Forall_impl; [exact Hall|]. simpl. lia.
    + constructor; [exact IH|].
      rewrite (sort_insert_perm _ x l).
      constructor; [exact Hge | exact Hall].
Qed.

Lemma sort_Slice_sorted (l : list A) :
  StronglySorted (fun a b => key a <= key b)
    (sort_Slice (fun a b => key a <? key b) l).
Proof.
  unfold sort_Slice. induction l as [|x l IH]; simpl.
  - constructor.
  - by apply sort_insert_sorted.
Qed.

Lemma sorted_strict_iff_NoDup (l : list A) :
  StronglySorted (fun a b => key a <= key b) l ->
  StronglySorted (fun a b => key a < key b) l <-> NoDup (key <$> l).
Proof.
  induction 1 as [|x l Hs IH Hall]; simpl.
  - split; constructor.
  - split.
    + intros Hlt. apply StronglySorted_inv in Hlt as [Hlt Hx].
      constructor; [|by apply IH].
      intros (y & Hy & Hin)%list_elem_of_fmap.
      rewrite Forall_forall in Hx. apply Hx in Hin. lia.
    + intros [Hnin Hnd]%NoDup_cons.
      constructor; [by apply IH|].
      rewrite Forall_forall in Hall |- *. intros y Hy.
      specialize (Hall y Hy). simpl in Hall.
      assert (key x <> key y).
      { intros Heq. apply Hnin. rewrite Heq. by apply list_elem_of_fmap_2. }
      lia.
Qed.
End SortByKey.

(** ** Listing step executions *)

Lemma keyed_step (s : MemoryStore.t) (o : MemoryStore.op) :
  MemoryStore.keyed s -> MemoryStore.keyed (MemoryStore.step s o).1.
Proof.
  unfold MemoryStore.keyed. intros Hk.
  assert (Hins : forall exec base,
    (forall stepID e, base !! stepID = Some e ->
       StepExecution.RunID e = StepExecution.RunID exec
       /\ StepExecution.StepID e = stepID) ->
    forall runID (m : gmap string StepExecution.t) stepID e,
      <[StepExecution.RunID exec :=
          <[StepExecution.StepID exec := deepCopyStepExecution exec]> base]>
        (MemoryStore.stepExecutions s) !! runID = Some m ->
      m !! stepID = Some e ->
      StepExecution.RunID e = runID /\ StepExecution.StepID e = stepID).
  { intros exec base Hbase runID m stepID e Hm He.
    destruct (decide (StepExecution.RunID exec = runID)) as [Hr|Hr].
    - rewrite Hr, lookup_insert_eq in Hm. injection Hm as <-.
      destruct (decide (StepExecution.StepID exec = stepID)) as [Hs|Hs].
      + rewrite Hs, lookup_insert_eq in He. injection He as <-.
        by rewrite deepCopyStepExecution_id.
      + rewrite lookup_insert_ne in He by done.
        rewrite <- Hr. by apply Hbase.
    - rewrite lookup_insert_ne in Hm by done. by eapply Hk. }
  destruct o as [run|run|id status err|exec|exec|r k b|r k b|r k]; simpl.
  - unfold MemoryStore.CreateRun.
    destruct (MemoryStore.runs s !! WorkflowRun.RunID run); [exact Hk|].
    simpl. intros runID m stepID e Hm He.
    destruct (decide (WorkflowRun.RunID run = runID)) as [Hr|Hr].
    + rewrite Hr, lookup_insert_eq in Hm. injection Hm as <-.
      by rewrite lookup_empty in He.
    + rewrite lookup_insert_ne in Hm by done. by eapply Hk.
  - unfold MemoryStore.UpdateRun.
    by destruct (MemoryStore.runs s !! WorkflowRun.RunID run).
  - unfold MemoryStore.UpdateRunStatus.
    by destruct (MemoryStore.runs s !! id).
  - apply Hins. intros stepID e.
    destruct (MemoryStore.stepExecutions s !! StepExecution.RunID exec)
      as [m0|] eqn:Hm0; simpl.
    + by apply Hk.
    + by rewrite lookup_empty.
  - unfold MemoryStore.UpdateStepExecution.
    destruct (MemoryStore.stepExecutions s !! StepExecution.RunID exec)
      as [m0|] eqn:Hm0; [|exact Hk].
    simpl. apply Hins. intros stepID e. by apply Hk.
  - exact Hk.
  - exact Hk.
  - unfold MemoryStore.DeleteState.
    by destruct (MemoryStore.state s !! r).
Qed.

Lemma keyed_exec (os : list MemoryStore.op) (s : MemoryStore.t) :
  MemoryStore.keyed s -> MemoryStore.keyed (MemoryStore.exec s os).
Proof.
  revert s. induction os as [|o os IH]; intros s Hk; [done|].
  simpl. apply IH. by apply keyed_step.
Qed.

Lemma keyed_reachable (os : list MemoryStore.op) :
  MemoryStore.keyed (MemoryStore.exec MemoryStore.NewMemoryStore os).
Proof.
  apply keyed_exec. intros runID m stepID e Hm.
  simpl in Hm. by rewrite lookup_empty in Hm.
Qed.

Lemma ListStepExecutions_keyed (s : MemoryStore.t) (runID : string) :
  MemoryStore.keyed s ->
  exists l,
    MemoryStore.ListStepExecutions s runID = Ok l
    /\ StronglySorted
         (fun a b => StepExecution.ExecutionIndex a
                     <= StepExecution.ExecutionIndex b) l
    /\ NoDup (StepExecution.StepID <$> l)
    /\ (forall e, e ∈ l <->
          MemoryStore.storedStepExecution s runID (StepExecution.StepID e)
          = Some e).
Proof.
  intros Hk. unfold MemoryStore.ListStepExecutions,
    MemoryStore.storedStepExecution.
  destruct (MemoryStore.stepExecutions s !! runID) as [m|] eqn:Hm; simpl.
  - eexists; split; [reflexivity|].
    assert (Hvals :
      (fun kv : string * StepExecution.t => deepCopyStepExecution kv.2)
        <$> map_to_list m = (map_to_list m).*2).
    { apply list_fmap_ext. intros i [k e] _. simpl.
      apply deepCopyStepExecution_id. }
    rewrite Hvals.
    assert (Hperm :
      sort_Slice MemoryStore.lessByIndex (map_to_list m).*2
      ≡ₚ (map_to_list m).*2) by apply sort_Slice_perm.
    assert (Hkeys : StepExecution.StepID <$> (map_to_list m).*2
                    = (map_to_list m).*1).
    { rewrite <- list_fmap_compose. apply list_fmap_ext.
      intros i [k e] Hi. simpl.
      apply list_elem_of_lookup_2, elem_of_map_to_list in Hi.
      by destruct (Hk runID m k e Hm Hi). }
    split; [|split].
    + apply (sort_Slice_sorted StepExecution.ExecutionIndex).
    + rewrite Hperm, Hkeys. apply NoDup_fst_map_to_list.
    + intros e. rewrite Hperm. rewrite list_elem_of_fmap. split.
      * intros ([k e'] & -> & Hin). simpl.
        apply elem_of_map_to_list in Hin.
        destruct (Hk runID m k e' Hm Hin) as [_ ->]. exact Hin.
      * intros He. exists (StepExecution.StepID e, e). split; [done|].
        by apply elem_of_map_to_list.
  - exists []. split; [done|]. split; [constructor|].
    split; [constructor|]. intros e. split; [by intros ?%elem_of_nil|done].
Qed.

Lemma sorted_data_coherent (rows : list LibSQLStore.stepExecutionRow) :
  Forall (fun row => LibSQLStore.execution_index row
                     = StepExecution.ExecutionIndex (LibSQLStore.data row))
    rows ->
  StronglySorted
    (fun a b => LibSQLStore.execution_index a <= LibSQLStore.execution_index b)
    rows ->
  StronglySorted
    (fun a b => StepExecution.ExecutionIndex a <= StepExecution.ExecutionIndex b)
    (LibSQLStore.data <$> rows).
Proof.
  intros Hcoh Hs. induction Hs as [|r rows Hs IH Hall]; simpl.
  - constructor.
  - apply Forall_cons in Hcoh as [Hr Hrows].
    constructor; [by apply IH|].
    rewrite Forall_fmap. rewrite Forall_forall in Hall, Hrows |- *.
    intros r' Hin. simpl. rewrite <- Hr, <- (Hrows r' Hin). by apply Hall.
Qed.

Lemma LibSQLStore_ListStepExecutions_sorted (s : LibSQLStore.t)
    (runID : string) :
  LibSQLStore.closed s = false -> LibSQLStore.coherent s ->
  exists l,
    LibSQLStore.ListStepExecutions s runID = Ok l
    /\ StronglySorted
         (fun a b => StepExecution.ExecutionIndex a
                     <= StepExecution.ExecutionIndex b) l
    /\ (forall e, e ∈ l <->
          exists stepID row,
            LibSQLStore.step_executions s !! (runID, stepID) = Some row
            /\ LibSQLStore.data row = e).
Proof.
  intros Hopen Hcoh. unfold LibSQLStore.ListStepExecutions. rewrite Hopen.
  eexists; split; [reflexivity|].
  set (rows := (filter (fun kv : string * string * LibSQLStore.stepExecutionRow => kv.1.1 = runID)
             (map_to_list (LibSQLStore.step_executions s))).*2).
  assert (Hperm : sort_Slice LibSQLStore.lessByColumn rows ≡ₚ rows)
    by apply sort_Slice_perm.
  assert (Hin : forall row, row ∈ rows <->
            exists stepID,
              LibSQLStore.step_executions s !! (runID, stepID) = Some row).
  { intros row. unfold rows. rewrite list_elem_of_fmap. split.
    - intros ([[r k] row'] & -> & [Hr Hkv]%list_elem_of_filter).
      simpl in *. subst r. exists k. by apply elem_of_map_to_list.
    - intros [k Hk]. exists (runID, k, row). split; [done|].
      apply list_elem_of_filter. split; [done|].
      by apply elem_of_map_to_list. }
  split.
  - apply sorted_data_coherent.
    + rewrite Hperm. apply Forall_forall. intros row [k Hk]%Hin.
      by eapply Hcoh.
    + apply (sort_Slice_sorted LibSQLStore.execution_index).
  - intros e. rewrite Hperm, list_elem_of_fmap. split.
    + intros (row & -> & [k Hk]%Hin). eauto.
    + intros (k & row & Hk & <-). exists row. split; [done|].
      apply Hin. eauto.
Qed.

Lemma coherent_new : LibSQLStore.coherent LibSQLStore.NewLibSQLStore.
Proof. intros k row Hk. simpl in Hk. by rewrite lookup_empty in Hk. Qed.

Lemma coherent_CreateStepExecution (s : LibSQLStore.t)
    (exec : StepExecution.t) :
  LibSQLStore.coherent s ->
  LibSQLStore.coherent (LibSQLStore.CreateStepExecution s exec).1.
Proof.
  intros Hcoh. unfold LibSQLStore.CreateStepExecution.
  destruct (LibSQLStore.closed s); [exact Hcoh|].
  destruct (LibSQLStore.step_executions s
              !! (StepExecution.RunID exec, StepExecution.StepID exec))
    eqn:Hl; [exact Hcoh|].
  intros k row. simpl.
  destruct (decide ((StepExecution.RunID exec, StepExecution.StepID exec) = k))
    as [<-|Hne].
  - rewrite lookup_insert_eq. by intros [= <-].
  - rewrite lookup_insert_ne by done. apply Hcoh.
Qed.

(** C5, amended.  Listing the step executions of a run returns every
    stored execution of that run, ordered by executionIndex ascending
    (each index at most the next one).  In the in-memory store, in any
    state reached from the empty store, there is exactly one entry per
    stored step id.  The sequence is strictly increasing exactly when no
    two listed entries carry the same executionIndex; the stores accept
    equal ones.  For the SQL store this is stated for an open database
    whose [execution_index] column agrees with the stored documents. *)
Theorem ListStepExecutions_ascending (os : list MemoryStore.op)
    (ls : LibSQLStore.t) (runID : string) :
  (exists l,
     MemoryStore.ListStepExecutions
       (MemoryStore.exec MemoryStore.NewMemoryStore os) runID = Ok l
     /\ StronglySorted
          (fun a b => StepExecution.ExecutionIndex a
                      <= StepExecution.ExecutionIndex b) l
     /\ NoDup (StepExecution.StepID <$> l)
     /\ (forall e, e ∈ l <->
           MemoryStore.storedStepExecution
             (MemoryStore.exec MemoryStore.NewMemoryStore os) runID
             (StepExecution.StepID e) = Some e)
     /\ (StronglySorted
           (fun a b => StepExecution.ExecutionIndex a
                       < StepExecution.ExecutionIndex b) l
         <-> NoDup (StepExecution.ExecutionIndex <$> l)))
  /\ (LibSQLStore.closed ls = false -> LibSQLStore.coherent ls ->
      exists l,
        LibSQLStore.ListStepExecutions ls runID = Ok l
        /\ StronglySorted
             (fun a b => StepExecution.ExecutionIndex a
                         <= StepExecution.ExecutionIndex b) l
        /\ (forall e, e ∈ l <->
              exists stepID row,
                LibSQLStore.step_executions ls !! (runID, stepID) = Some row
                /\ LibSQLStore.data row = e)
        /\ (StronglySorted
              (fun a b => StepExecution.ExecutionIndex a
                          < StepExecution.ExecutionIndex b) l
            <-> NoDup (StepExecution.ExecutionIndex <$> l))).
Proof.
  split.
  - destruct (ListStepExecutions_keyed
                (MemoryStore.exec MemoryStore.NewMemoryStore os) runID
                (keyed_reachable os)) as (l & Hl & Hs & Hnd & Hin).
    exists l. split; [exact Hl|]. split; [exact Hs|].
    split; [exact Hnd|]. split; [exact Hin|].
    by apply (sorted_strict_iff_NoDup StepExecution.ExecutionIndex).
  - intros Hopen Hcoh.
    destruct (LibSQLStore_ListStepExecutions_sorted ls runID Hopen Hcoh)
      as (l & Hl & Hs & Hin).
    exists l. split; [exact Hl|]. split; [exact Hs|]. split; [exact Hin|].
    by apply (sorted_strict_iff_NoDup StepExecution.ExecutionIndex).
Qed.

(** Three steps begun in the order add, multiply, format and stored out
    of order are listed by index; the same rows in the SQL store. *)
Lemma ListStepExecutions_ascending_witness :
  MemoryStore.ListStepExecutions
    (MemoryStore.exec MemoryStore.NewMemoryStore
       [MemoryStore.OpCreateRun sampleRun;
        MemoryStore.OpCreateStepExecution (sampleExec "format" 2);
        MemoryStore.OpCreateStepExecution (sampleExec "add" 0);
        MemoryStore.OpCreateStepExecution (sampleExec "multiply" 1)]) "run-1"
  = Ok [sampleExec "add" 0; sampleExec "multiply" 1; sampleExec "format" 2]
  /\ exists l,
       LibSQLStore.ListStepExecutions
         (LibSQLStore.CreateStepExecution
            (LibSQLStore.CreateStepExecution LibSQLStore.NewLibSQLStore
               (sampleExec "multiply" 1)).1
            (sampleExec "add" 0)).1 "run-1" = Ok l
       /\ StronglySorted
            (fun a b => StepExecution.ExecutionIndex a
                        <= StepExecution.ExecutionIndex b) l.
Proof.
  pose proof (ListStepExecutions_ascending
    [MemoryStore.OpCreateRun sampleRun;
     MemoryStore.OpCreateStepExecution (sampleExec "format" 2);
     MemoryStore.OpCreateStepExecution (sampleExec "add" 0);
     MemoryStore.OpCreateStepExecution (sampleExec "multiply" 1)]
    (LibSQLStore.CreateStepExecution
       (LibSQLStore.CreateStepExecution LibSQLStore.NewLibSQLStore
          (sampleExec "multiply" 1)).1
       (sampleExec "add" 0)).1 "run-1") as [_ Hsql].
  split; [vm_compute; reflexivity|].
  destruct Hsql as (l & Hl & Hs & _).
  - vm_compute. reflexivity.
  - apply coherent_CreateStepExecution, coherent_CreateStepExecution,
      coherent_new.
  - exists l. split; [exact Hl | exact Hs].
Defined.

(** C5, as stated, fails: the store files two step executions of one run
    under the same executionIndex, and the listing then holds both, so
    it is not strictly increasing. *)
Lemma ListStepExecutions_equal_indexes :
  exists a b,
    MemoryStore.ListStepExecutions
      (MemoryStore.exec MemoryStore.NewMemoryStore
         [MemoryStore.OpCreateRun sampleRun;
          MemoryStore.OpCreateStepExecution (sampleExec "fetch-a" 0);
          MemoryStore.OpCreateStepExecution (sampleExec "fetch-b" 0)]) "run-1"
    = Ok [a; b]
    /\ StepExecution.StepID a <> StepExecution.StepID b
    /\ ~ StepExecution.ExecutionIndex a < StepExecution.ExecutionIndex b.
Proof.
  eexists _, _. split; [vm_compute; reflexivity|].
  split; [discriminate | simpl; lia].
Qed.

(** ** The stores keep the state contract *)

#[export] Instance MemoryStore_contract : StateStoreContract MemoryStore.t.
Proof.
  split; simpl.
  - intros s s' runID key value [= <-].
    unfold MemoryStore.LoadState. simpl.
    by rewrite !lookup_insert_eq, !copy_make.
  - intros s s' runID key. unfold MemoryStore.DeleteState.
    destruct (MemoryStore.state s !! runID) as [m|] eqn:Hm.
    + intros [= <-]. unfold MemoryStore.LoadState. simpl.
      by rewrite lookup_insert_eq, lookup_delete_eq.
    + intros [= <-]. unfold MemoryStore.LoadState. by rewrite Hm.
Qed.

#[export] Instance LibSQLStore_contract : StateStoreContract LibSQLStore.t.
Proof.
  split; simpl.
  - intros s s' runID key value. unfold LibSQLStore.SaveState.
    destruct (LibSQLStore.closed s) eqn:Hc; [done|].
    intros [= <-]. unfold LibSQLStore.LoadState. simpl.
    by rewrite lookup_insert_eq.
  - intros s s' runID key. unfold LibSQLStore.DeleteState.
    destruct (LibSQLStore.closed s) eqn:Hc; [done|].
    intros [= <-]. unfold LibSQLStore.LoadState. simpl.
    by rewrite lookup_delete_eq.
Qed.

(** ** The state accessor *)

Section StateAccessorFacts.
Context {S : Type} `{StateStoreContract S}.

Lemma stateAccessor_Get_hit {V} `{JSON V} (a : stateAccessor) (s : S)
    (key : string) (data : bytes) :
  cache a !! key = Some data ->
  stateAccessor_Get a s key = (a, json_Unmarshal data).
Proof. intros Hc. unfold stateAccessor_Get. by rewrite Hc. Qed.

Lemma stateAccessor_Set_marshalled {V} `{JSON V} (a : stateAccessor)
    (s : S) (key : string) (value : V) (data : bytes) :
  json_Marshal value = Ok data ->
  stateAccessor_Set a s key value
  = (mkStateAccessor (st_runID a) (<[key := data]> (cache a)),
     (SaveState s (st_runID a) key data).1,
     match (SaveState s (st_runID a) key data).2 with
     | Some err => Some (ErrWrap ("failed to save state for key " +:+ key) err)
     | None => None
     end).
Proof.
  intros Hm. unfold stateAccessor_Set. rewrite Hm.
  by destruct (SaveState s (st_runID a) key data) as [s' [err|]].
Qed.
End StateAccessorFacts.

(** C1, amended.  [Set(k, v)] serializes the value, writes the bytes
    into the accessor's cache entry for k and then hands them to the
    store.  When it returns without error, the cache and the store both
    hold the serialized bytes for k.  It returns an error exactly when
    serialization or the store write fails.  When serialization fails,
    neither the cache nor the store is touched; when the store write
    fails, the cache entry for k already holds the new bytes. *)
Theorem stateAccessor_Set_write_through
    {S : Type} `{StateStoreContract S} {V : Type} `{JSON V}
    (a a' : stateAccessor) (s s' : S) (key : string) (value : V)
    (e : option error) :
  stateAccessor_Set a s key value = (a', s', e) ->
  (forall err, json_Marshal value = Err err ->
     a' = a /\ s' = s /\ is_Some e)
  /\ (forall data, json_Marshal value = Ok data ->
        st_runID a' = st_runID a
        /\ cache a' = <[key := data]> (cache a)
        /\ cache a' !! key = Some data
        /\ s' = (SaveState s (st_runID a) key data).1
        /\ (e = None <-> (SaveState s (st_runID a) key data).2 = None)
        /\ (e = None -> LoadState s' (st_runID a) key = Ok data)).
Proof.
  intros Hset. split.
  - intros err Hm. unfold stateAccessor_Set in Hset. rewrite Hm in Hset.
    injection Hset as <- <- <-. eauto.
  - intros data Hm. rewrite (stateAccessor_Set_marshalled _ _ _ _ _ Hm) in Hset.
    injection Hset as <- <- <-. simpl.
    split; [done|]. split; [done|].
    split; [apply lookup_insert_eq|]. split; [done|].
    destruct (SaveState s (st_runID a) key data) as [s1 [err|]] eqn:Hs; simpl.
    + split; [split; discriminate | discriminate].
    + split; [done|]. intros _. by eapply load_after_save.
Qed.

Lemma stateAccessor_Set_write_through_witness :
  let a := NewStateAccessor "run-1" in
  let s := (MemoryStore.CreateRun MemoryStore.NewMemoryStore sampleRun).1 in
  let r := stateAccessor_Set a s "done" true in
  r.2 = None
  /\ cache r.1.1 !! "done" = Some (lit "true")
  /\ MemoryStore.LoadState r.1.2 "run-1" "done" = Ok (lit "true").
Proof.
  intros a s r.
  destruct (stateAccessor_Set_write_through a r.1.1 s r.1.2 "done" true r.2)
    as [_ Hok]; [vm_compute; reflexivity|].
  destruct (Hok (lit "true") eq_refl) as (_ & _ & Hcache & _ & _ & Hload).
  assert (He : r.2 = None) by (vm_compute; reflexivity).
  split; [exact He|]. split; [exact Hcache | exact (Hload He)].
Defined.

(** C1, as stated, fails: on a store whose database handle is closed the
    write fails and [Set] returns an error, yet the accessor's cache
    entry for the key, absent before the call, now holds the new bytes. *)
Lemma stateAccessor_Set_caches_before_store_failure :
  let a := NewStateAccessor "run-1" in
  let s := (LibSQLStore.Close LibSQLStore.NewLibSQLStore).1 in
  exists a' s' err,
    stateAccessor_Set a s "done" true = (a', s', Some err)
    /\ cache a !! "done" = None
    /\ cache a' !! "done" = Some (lit "true")
    /\ cache a' !! "done" <> cache a !! "done".
Proof.
  eexists _, _, _. split; [vm_compute; reflexivity|].
  split; [reflexivity|]. split; [vm_compute; reflexivity|].
  vm_compute. discriminate.
Qed.

(** C7.  Over a store that keeps the state contract (both stores do):
    after [Set(k, v)] has succeeded for a value that round-trips through
    JSON, [Get(k)] returns v, whatever has happened to the store in
    between; and right after [Delete(k)] has succeeded, [Has(k)] is
    false. *)
Theorem stateAccessor_laws
    {S : Type} `{StateStoreContract S} {V : Type} `{JSON V}
    (a : stateAccessor) (s : S) (key : string) (value : V) :
  (forall a1 s1, json_roundtrips value ->
     stateAccessor_Set a s key value = (a1, s1, None) ->
     forall s2 : S, stateAccessor_Get a1 s2 key = (a1, Ok value))
  /\ (forall a1 s1,
        stateAccessor_Delete a s key = (a1, s1, None) ->
        stateAccessor_Has a1 s1 key = false).
Proof.
  split.
  - intros a1 s1 (data & Hm & Hu) Hset s2.
    rewrite (stateAccessor_Set_marshalled _ _ _ _ _ Hm) in Hset.
    injection Hset as <- _ _.
    rewrite (stateAccessor_Get_hit _ s2 key data) by apply lookup_insert_eq.
    by rewrite Hu.
  - intros a1 s1. unfold stateAccessor_Delete.
    destruct (DeleteState s (st_runID a) key) as [s' [err|]] eqn:Hd; [done|].
    intros [= <- <-]. unfold stateAccessor_Has. simpl.
    rewrite lookup_delete_eq.
    by rewrite (load_after_delete s s' (st_runID a) key Hd).
Qed.

Lemma stateAccessor_laws_witness :
  let a := NewStateAccessor "run-1" in
  let s := (MemoryStore.CreateRun MemoryStore.NewMemoryStore sampleRun).1 in
  let r := stateAccessor_Set a s "done" true in
  let d := stateAccessor_Delete r.1.1 r.1.2 "done" in
  stateAccessor_Get r.1.1 r.1.2 "done" = (r.1.1, Ok true)
  /\ stateAccessor_Has d.1.1 d.1.2 "done" = false.
Proof.
  intros a s r d.
  destruct (stateAccessor_laws a s "done" true) as [Hget _].
  destruct (stateAccessor_laws r.1.1 r.1.2 "done" true) as [_ Hhas].
  split.
  - apply (Hget r.1.1 r.1.2).
    + exists (lit "true"). split; reflexivity.
    + vm_compute. reflexivity.
  - apply (Hhas d.1.1 d.1.2). vm_compute. reflexivity.
Defined.

(** ** The step accessor *)

Section StepAccessorFacts.
Context {S : Type} `{WorkflowStore S}.

Lemma stepAccessor_GetOutput_hit {V} `{JSON V} (a : stepAccessor) (s : S)
    (stepID : string) (data : bytes) :
  outputCache a !! stepID = Some data ->
  stepAccessor_GetOutput a s stepID = (a, json_Unmarshal data).
Proof. intros Hc. unfold stepAccessor_GetOutput. by rewrite Hc. Qed.

Lemma stepAccessor_GetOutput_ok {V} `{JSON V} (a a1 : stepAccessor) (s : S)
    (stepID : string) (v : V) :
  stepAccessor_GetOutput a s stepID = (a1, Ok v) ->
  exists data,
    (outputCache a !! stepID = Some data
     \/ (outputCache a !! stepID = None
         /\ LoadStepOutput s (sa_runID a) stepID = Ok data))
    /\ json_Unmarshal data = Ok v
    /\ outputCache a1 !! stepID = Some data.
Proof.
  unfold stepAccessor_GetOutput.
  destruct (outputCache a !! stepID) as [data|] eqn:Hc.
  - intros [= <- Hu]. exists data. eauto.
  - destruct (LoadStepOutput s (sa_runID a) stepID) as [data|err] eqn:Hl;
      [|done].
    destruct (json_Unmarshal data) as [v'|err] eqn:Hu; [|done].
    intros [= <- <-]. exists data. simpl.
    rewrite lookup_insert_eq. eauto.
Qed.

Lemma stepAccessor_GetOutput_keeps {V} `{JSON V} (a a1 : stepAccessor)
    (s : S) (stepID' : string) (r : result V) (stepID : string)
    (data : bytes) :
  stepAccessor_GetOutput a s stepID' = (a1, r) ->
  outputCache a !! stepID = Some data ->
  outputCache a1 !! stepID = Some data.
Proof.
  unfold stepAccessor_GetOutput. intros Hget Hc.
  destruct (outputCache a !! stepID') as [d|] eqn:Hc'.
  - by injection Hget as <- _.
  - assert (stepID' <> stepID) by congruence.
    destruct (LoadStepOutput s (sa_runID a) stepID') as [d|err].
    + destruct (json_Unmarshal d); injection Hget as <- _; simpl;
        by rewrite lookup_insert_ne.
    + by injection Hget as <- _.
Qed.

Lemma stepAccessor_GetInput_keeps {V} `{JSON V} (a a1 : stepAccessor)
    (s : S) (stepID' : string) (r : result V) :
  stepAccessor_GetInput a s stepID' = (a1, r) ->
  outputCache a1 = outputCache a.
Proof.
  unfold stepAccessor_GetInput. intros Hget.
  destruct (inputCache a !! stepID'); [by injection Hget as <- _|].
  destruct (GetStepExecution s (sa_runID a) stepID') as [exec|err];
    [|by injection Hget as <- _].
  destruct (StepExecution.Input exec) as [input|];
    [|by injection Hget as <- _].
  by destruct (json_Unmarshal input); injection Hget as <- _.
Qed.

Lemma stepAccessor_calls_keep (a a' : stepAccessor) (stepID : string)
    (data : bytes) :
  stepAccessor_calls a a' ->
  outputCache a !! stepID = Some data ->
  outputCache a' !! stepID = Some data.
Proof.
  induction 1 as [a|V J a a1 a2 s id r Hget _ IH|V J a a1 a2 s id r Hget _ IH];
    intros Hc.
  - exact Hc.
  - apply IH. by eapply stepAccessor_GetOutput_keeps.
  - apply IH. by rewrite (stepAccessor_GetInput_keeps _ _ _ _ _ Hget).
Qed.
End StepAccessorFacts.

(** C9.  Once [GetOutput(stepId)] has succeeded on a step data accessor,
    the bytes of that first read stay in the accessor's output cache
    through every later [GetOutput] and [GetInput] call on it, and every
    later [GetOutput(stepId)] and [HasOutput(stepId)] is answered from
    them: the answer is the same for every state of the store (so also
    after the step's output has been overwritten there), and the call
    leaves the accessor as it is. *)
Theorem stepAccessor_GetOutput_cached
    {S : Type} `{WorkflowStore S} {V : Type} `{JSON V}
    (a a1 a2 : stepAccessor) (s : S) (stepID : string) (v : V) :
  stepAccessor_GetOutput a s stepID = (a1, Ok v) ->
  stepAccessor_calls a1 a2 ->
  exists data,
    (outputCache a !! stepID = Some data
     \/ (outputCache a !! stepID = None
         /\ LoadStepOutput s (sa_runID a) stepID = Ok data))
    /\ json_Unmarshal data = Ok v
    /\ outputCache a2 !! stepID = Some data
    /\ forall s' : S,
         stepAccessor_GetOutput a2 s' stepID = (a2, Ok v)
         /\ stepAccessor_HasOutput a2 s' stepID = true
         /\ forall (W : Type) (J : JSON W),
              stepAccessor_GetOutput (V := W) a2 s' stepID
              = (a2, json_Unmarshal data).
Proof.
  intros Hget Hcalls.
  destruct (stepAccessor_GetOutput_ok a a1 s stepID v Hget)
    as (data & Hfirst & Hu & Hc1).
  pose proof (stepAccessor_calls_keep a1 a2 stepID data Hcalls Hc1) as Hc2.
  exists data. split; [exact Hfirst|]. split; [exact Hu|].
  split; [exact Hc2|]. intros s'. split; [|split].
  - rewrite (stepAccessor_GetOutput_hit a2 s' stepID data Hc2). by rewrite Hu.
  - unfold stepAccessor_HasOutput. by rewrite Hc2.
  - intros W J. apply stepAccessor_GetOutput_hit. exact Hc2.
Qed.

(** The output of step "check" is read once, then overwritten in the
    store; the accessor still answers with the value it read. *)
Lemma stepAccessor_GetOutput_cached_witness :
  let s0 := (MemoryStore.SaveStepOutput MemoryStore.NewMemoryStore
               "run-1" "check" (lit "true")).1 in
  let s1 := (MemoryStore.SaveStepOutput s0 "run-1" "check" (lit "false")).1 in
  let r := stepAccessor_GetOutput (V := bool) (NewStepAccessor "run-1") s0
             "check" in
  r.2 = Ok true
  /\ MemoryStore.LoadStepOutput s1 "run-1" "check" = Ok (lit "false")
  /\ stepAccessor_GetOutput (V := bool) r.1 s1 "check" = (r.1, Ok true)
  /\ stepAccessor_HasOutput r.1 s1 "check" = true.
Proof.
  intros s0 s1 r.
  destruct (stepAccessor_GetOutput_cached (NewStepAccessor "run-1") r.1 r.1
              s0 "check" true) as (data & _ & _ & _ & Hlater).
  - vm_compute. reflexivity.
  - apply calls_done.
  - destruct (Hlater s1) as (Hget & Hhas & _).
    split; [vm_compute; reflexivity|].
    split; [vm_compute; reflexivity|].
    split; [exact Hget | exact Hhas].
Defined.

(** ** Build: config propagation *)

(** What the loop of [Build] makes of one step. *)
Lemma buildLoop_ok (ids : list string) (w w' : Workflow) :
  NoDup ids ->
  buildLoop w ids = (w', None) ->
  config w' = config w /\ graph w' = graph w
  /\ (forall stepID, stepID ∈ ids -> is_Some (steps w !! stepID))
  /\ (forall stepID,
        steps w' !! stepID
        = if decide (stepID ∈ ids)
          then (fun st =>
                  if decide (Step_GetConfig st = DefaultExecutionConfig)
                  then Step_SetConfig st (config w) else st)
               <$> steps w !! stepID
          else steps w !! stepID).
Proof.
  revert w. induction ids as [|x rest IH]; intros w Hnd Hloop.
  - injection Hloop as <-. repeat split; try done.
    intros stepID Hin. by apply elem_of_nil in Hin.
  - apply NoDup_cons in Hnd as [Hx Hnd]. simpl in Hloop.
    unfold Workflow_GetStep in Hloop.
    destruct (steps w !! x) as [st|] eqn:Hst; [|done].
    set (w1 := if decide (Step_GetConfig st = DefaultExecutionConfig)
               then with_steps w
                      (<[x := Step_SetConfig st (Workflow_GetConfig w)]>
                         (steps w))
               else w) in Hloop.
    assert (Hw1 : config w1 = config w /\ graph w1 = graph w
                  /\ forall stepID,
                       steps w1 !! stepID
                       = if decide (stepID = x)
                         then Some (if decide (Step_GetConfig st
                                               = DefaultExecutionConfig)
                                    then Step_SetConfig st (config w) else st)
                         else steps w !! stepID).
    { unfold w1. destruct (decide (Step_GetConfig st = DefaultExecutionConfig)).
      - simpl. repeat split. intros stepID.
        destruct (decide (stepID = x)) as [->|Hne].
        + by rewrite lookup_insert_eq.
        + by rewrite lookup_insert_ne.
      - repeat split. intros stepID.
        destruct (decide (stepID = x)) as [->|Hne]; done. }
    destruct Hw1 as (Hc1 & Hg1 & Hs1).
    destruct (IH w1 Hnd Hloop) as (Hc & Hg & Hsome & Hsteps).
    split; [congruence|]. split; [congruence|]. split.
    + intros stepID [->|Hin]%elem_of_cons; [by rewrite Hst|].
      specialize (Hsome stepID Hin). rewrite Hs1 in Hsome.
      destruct (decide (stepID = x)) as [->|]; [by rewrite Hst|done].
    + intros stepID. rewrite Hsteps, Hs1, Hc1.
      destruct (decide (stepID = x)) as [->|Hne].
      * rewrite Hst.
        destruct (decide (x ∈ rest)) as [?|_]; [done|].
        destruct (decide (x ∈ x :: rest)) as [_|Hn]; [done|].
        exfalso. apply Hn, elem_of_cons. by left.
      * destruct (decide (stepID ∈ rest)) as [Hin|Hnin];
          destruct (decide (stepID ∈ x :: rest)) as [Hin'|Hnin']; try done.
        -- exfalso. apply Hnin', elem_of_cons. by right.
        -- exfalso. apply elem_of_cons in Hin' as [?|?]; done.
Qed.

(** C8.  When [Build] succeeds, the workflow it returns is the builder's
    workflow with its default config and graph as they were, and for
    every step id that is a node of the graph: a step whose config equals
    [DefaultExecutionConfig] now holds the workflow's default config, and
    a step whose config differs from it is unchanged.  The config is held
    by value: setting another default config on the workflow afterwards
    leaves the step's config as it is. *)
Theorem Build_propagates_config (Graph_Validate : Graph -> option error)
    (b b' : WorkflowBuilder) (wf : Workflow) (stepID : string) :
  Build Graph_Validate b = (b', Ok wf) ->
  is_Some (Nodes (graph (workflow b)) !! stepID) ->
  exists st st',
    steps (workflow b) !! stepID = Some st
    /\ steps wf !! stepID = Some st'
    /\ workflow b' = wf
    /\ Workflow_GetConfig wf = Workflow_GetConfig (workflow b)
    /\ Step_GetID st' = Step_GetID st
    /\ (Step_GetConfig st = DefaultExecutionConfig ->
        Step_GetConfig st' = Workflow_GetConfig (workflow b))
    /\ (Step_GetConfig st <> DefaultExecutionConfig -> st' = st)
    /\ (forall c, steps (Workflow_SetConfig wf c) !! stepID = Some st').
Proof.
  unfold Build. intros Hbuild [nt Hnode].
  destruct (Graph_Validate (graph (workflow b))); [done|].
  destruct (buildLoop (workflow b)
              (map_to_list (Nodes (graph (workflow b)))).*1)
    as [w' [err|]] eqn:Hloop; [done|].
  injection Hbuild as <- <-.
  destruct (buildLoop_ok _ _ _ (NoDup_fst_map_to_list _) Hloop)
    as (Hc & Hg & Hsome & Hsteps).
  assert (Hin : stepID ∈ (map_to_list (Nodes (graph (workflow b)))).*1).
  { apply list_elem_of_fmap. exists (stepID, nt). split; [done|].
    by apply elem_of_map_to_list. }
  destruct (Hsome stepID Hin) as [st Hst].
  specialize (Hsteps stepID). rewrite decide_True in Hsteps by done.
  rewrite Hst in Hsteps. simpl in Hsteps.
  eexists st, _. split; [exact Hst|]. split; [exact Hsteps|].
  split; [done|]. split; [exact Hc|].
  destruct (decide (Step_GetConfig st = DefaultExecutionConfig)) as [Hd|Hd].
  - split; [done|]. split; [by intros _|]. split; [done|]. by intros c.
  - split; [done|]. split; [done|]. split; [by intros _|]. by intros c.
Qed.

Lemma Build_propagates_config_witness :
  let r := Build (fun _ => None) sampleBuilder in
  exists wf,
    r.2 = Ok wf
    /\ Step_GetConfig <$> steps wf !! "add" = Some sampleConfig
    /\ Step_GetConfig <$> steps wf !! "fetch" = Some customConfig.
Proof.
  intros r.
  assert (Hr : exists wf, Build (fun _ => None) sampleBuilder = (r.1, Ok wf)).
  { eexists. vm_compute. reflexivity. }
  destruct Hr as [wf Hr]. exists wf.
  split; [unfold r; by rewrite Hr|].
  destruct (Build_propagates_config (fun _ => None) sampleBuilder r.1 wf "add" Hr)
    as (st & st' & Hst & Hst' & _ & _ & _ & Hdef & _).
  { eexists. vm_compute. reflexivity. }
  destruct (Build_propagates_config (fun _ => None) sampleBuilder r.1 wf "fetch" Hr)
    as (st2 & st2' & Hst2 & Hst2' & _ & _ & _ & _ & Hkeep & _).
  { eexists. vm_compute. reflexivity. }
  assert (Hadd : st = mkStep "add" "Add" DefaultExecutionConfig).
  { vm_compute in Hst. by injection Hst as <-. }
  assert (Hfetch : st2 = mkStep "fetch" "Fetch" customConfig).
  { vm_compute in Hst2. by injection Hst2 as <-. }
  split.
  - rewrite Hst'. simpl. f_equal. rewrite Hdef by (by rewrite Hadd).
    reflexivity.
  - rewrite Hst2'. simpl. f_equal. rewrite Hkeep by (by rewrite Hfetch).
    by rewrite Hfetch.
Defined.

(** * Further properties of the code *)

(** ** Backoff at the edges of its input range *)

Lemma wrap64_mod (z : Z) : wrap64 z mod 2 ^ 64 = z mod 2 ^ 64.
Proof.
  unfold wrap64.
  rewrite Zminus_mod, Zmod_mod, <- Zminus_mod.
  f_equal. lia.
Qed.

Lemma wrap64_multiple (z : Z) : z mod 2 ^ 64 = 0 -> wrap64 z = 0.
Proof.
  intros Hz. unfold wrap64.
  rewrite Zplus_mod, Hz. reflexivity.
Qed.

Lemma mul64_multiple (x y : Z) :
  (x * y) mod 2 ^ 64 = 0 -> mul64 (wrap64 x) (wrap64 y) = 0.
Proof.
  intros Hxy. unfold mul64. apply wrap64_multiple.
  rewrite Zmult_mod, !wrap64_mod, <- Zmult_mod. exact Hxy.
Qed.

(** X1.  [CalculateBackoff] panics exactly when the strategy is
    EXPONENTIAL and the attempt is negative (the shift count
    [attempt - 1] is then negative); the one exception is the least
    [int], where [attempt - 1] wraps around to a positive count.  Under
    every other strategy a negative attempt returns normally. *)
Theorem CalculateBackoff_panics_iff (base attempt : Z) (strategy : string) :
  in_int64 attempt ->
  CalculateBackoff base attempt strategy = Panics
  <-> strategy = "EXPONENTIAL" /\ attempt < 0 /\ attempt <> - 2 ^ 63.
Proof.
  unfold in_int64. intros Hr. unfold CalculateBackoff.
  destruct (Z.eqb_spec attempt 0) as [->|Hnz].
  { split; [discriminate | lia]. }
  destruct (String.eqb_spec strategy "EXPONENTIAL") as [->|Hne].
  - unfold shl64, sub64.
    destruct (Z.eq_dec attempt (- 2 ^ 63)) as [->|Hmin].
    + split; [|lia].
      replace (wrap64 (- 2 ^ 63 - 1) <? 0) with false
        by (vm_compute; reflexivity).
      cbv iota. intros Hp. inversion Hp.
    + rewrite (wrap64_in_range (attempt - 1)) by (unfold in_int64; lia).
      destruct (Z.ltb_spec (attempt - 1) 0) as [Hlt|Hge].
      * split; [intros _; repeat split; lia | reflexivity].
      * split; [discriminate | lia].
  - split; [|by intros [? _]].
    by destruct (String.eqb strategy "LINEAR"), (String.eqb strategy "NONE").
Qed.

Lemma CalculateBackoff_panics_iff_witness :
  CalculateBackoff 1000 (-1) "EXPONENTIAL" = Panics
  /\ CalculateBackoff 1000 (-1) "LINEAR" <> Panics.
Proof.
  split.
  - apply (CalculateBackoff_panics_iff 1000 (-1) "EXPONENTIAL").
    + unfold in_int64. lia.
    + repeat split; lia.
  - intros Hp.
    apply (CalculateBackoff_panics_iff 1000 (-1) "LINEAR") in Hp as [Hs _].
    + discriminate Hs.
    + unfold in_int64. lia.
Defined.

(** X2.  From attempt 59 on, the exponential delay is zero for every
    base delay: the multiplier [1 << (attempt-1)] times the 10^6
    nanoseconds of a millisecond is a multiple of 2^64, so nothing of
    the product is left in the 64-bit [time.Duration]. *)
Theorem CalculateBackoff_exponential_vanishes (base attempt : Z) :
  59 <= attempt -> in_int64 attempt ->
  CalculateBackoff base attempt "EXPONENTIAL" = Returns 0.
Proof.
  unfold in_int64. intros Ha Hr. unfold CalculateBackoff.
  destruct (Z.eqb_spec attempt 0) as [->|_]; [lia|].
  simpl String.eqb. cbv iota.
  unfold sub64. rewrite (wrap64_in_range (attempt - 1)) by (unfold in_int64; lia).
  unfold shl64. destruct (Z.ltb_spec (attempt - 1) 0) as [?|_]; [lia|].
  rewrite Z.shiftl_1_l. f_equal.
  unfold mul64 at 2. apply mul64_multiple.
  unfold Millisecond.
  replace (attempt - 1) with (58 + (attempt - 59)) by lia.
  rewrite Z.pow_add_r by lia.
  replace (base * 1000000 * (2 ^ 58 * 2 ^ (attempt - 59)))
    with (base * 15625 * 2 ^ (attempt - 59) * 2 ^ 64) by lia.
  apply Z_mod_mult.
Qed.

Lemma CalculateBackoff_exponential_vanishes_witness :
  CalculateBackoff 1000 59 "EXPONENTIAL" = Returns 0
  /\ CalculateBackoff 7 100 "EXPONENTIAL" = Returns 0.
Proof.
  split.
  - apply CalculateBackoff_exponential_vanishes; [lia | unfold in_int64; lia].
  - apply CalculateBackoff_exponential_vanishes; [lia | unfold in_int64; lia].
Defined.

(** ** The in-memory store: updates of runs *)

Lemma GetRun_ok_inv (s : MemoryStore.t) (runID : string)
    (run : WorkflowRun.t) :
  MemoryStore.GetRun s runID = Ok run <-> MemoryStore.runs s !! runID = Some run.
Proof.
  unfold MemoryStore.GetRun.
  destruct (MemoryStore.runs s !! runID) as [r|]; [|by split].
  rewrite deepCopyRun_id. split; congruence.
Qed.

(** X3.  [UpdateRun] replaces the whole record of a stored run and
    nothing else: the run is read back as given, every other run and all
    step executions, step outputs and state are as before.  For a run id
    the store does not hold it returns [ErrRunNotFound] and changes
    nothing. *)
Theorem UpdateRun_replaces_record (s : MemoryStore.t) (run : WorkflowRun.t) :
  (MemoryStore.runs s !! WorkflowRun.RunID run = None ->
   MemoryStore.UpdateRun s run = (s, Some ErrRunNotFound))
  /\ (is_Some (MemoryStore.runs s !! WorkflowRun.RunID run) ->
      exists s',
        MemoryStore.UpdateRun s run = (s', None)
        /\ MemoryStore.GetRun s' (WorkflowRun.RunID run) = Ok run
        /\ (forall id, id <> WorkflowRun.RunID run ->
              MemoryStore.GetRun s' id = MemoryStore.GetRun s id)
        /\ MemoryStore.stepExecutions s' = MemoryStore.stepExecutions s
        /\ MemoryStore.stepOutputs s' = MemoryStore.stepOutputs s
        /\ MemoryStore.state s' = MemoryStore.state s).
Proof.
  unfold MemoryStore.UpdateRun. split.
  - by intros ->.
  - intros [old ->]. eexists. split; [reflexivity|].
    split; [|split; [|done]].
    + apply GetRun_ok_inv. simpl. by rewrite lookup_insert_eq, deepCopyRun_id.
    + intros id Hne. unfold MemoryStore.GetRun. simpl.
      by rewrite lookup_insert_ne.
Qed.

Lemma UpdateRun_replaces_record_witness :
  let s := (MemoryStore.CreateRun MemoryStore.NewMemoryStore sampleRun).1 in
  let run := WorkflowRun.set_Status RunStatusRunning sampleRun in
  MemoryStore.GetRun (MemoryStore.UpdateRun s run).1 "run-1" = Ok run
  /\ MemoryStore.UpdateRun MemoryStore.NewMemoryStore run
     = (MemoryStore.NewMemoryStore, Some ErrRunNotFound).
Proof.
  intros s run.
  destruct (UpdateRun_replaces_record s run) as [_ Hknown].
  destruct (UpdateRun_replaces_record MemoryStore.NewMemoryStore run)
    as [Hnew _].
  split.
  - destruct Hknown as (s' & Hup & Hget & _).
    { eexists. vm_compute. reflexivity. }
    by rewrite Hup.
  - apply Hnew. reflexivity.
Defined.

(** X4.  [UpdateRunStatus] on a stored run changes two fields of the
    record and nothing else in the store: the status becomes the given
    one and the error becomes the given one, so a nil error clears an
    error recorded before.  For a run id the store does not hold it
    returns [ErrRunNotFound] and changes nothing. *)
Theorem UpdateRunStatus_sets_status_and_error (s : MemoryStore.t)
    (runID : string) (status : RunStatus) (err : option WorkflowError.t) :
  (MemoryStore.runs s !! runID = None ->
   MemoryStore.UpdateRunStatus s runID status err = (s, Some ErrRunNotFound))
  /\ (forall run,
        MemoryStore.GetRun s runID = Ok run ->
        exists s',
          MemoryStore.UpdateRunStatus s runID status err = (s', None)
          /\ MemoryStore.GetRun s' runID
             = Ok (WorkflowRun.set_Error err (WorkflowRun.set_Status status run))
          /\ (forall id, id <> runID ->
                MemoryStore.GetRun s' id = MemoryStore.GetRun s id)
          /\ MemoryStore.stepExecutions s' = MemoryStore.stepExecutions s
          /\ MemoryStore.stepOutputs s' = MemoryStore.stepOutputs s
          /\ MemoryStore.state s' = MemoryStore.state s).
Proof.
  unfold MemoryStore.UpdateRunStatus. split.
  - by intros ->.
  - intros run Hrun%GetRun_ok_inv. rewrite Hrun.
    eexists. split; [reflexivity|]. split; [|split; [|done]].
    + apply GetRun_ok_inv. simpl. rewrite lookup_insert_eq.
      destruct err as [e|]; [|done]. by rewrite copyWorkflowError_id.
    + intros id Hne. unfold MemoryStore.GetRun. simpl.
      by rewrite lookup_insert_ne.
Qed.

Lemma UpdateRunStatus_sets_status_and_error_witness :
  let failure := WorkflowError.mk "HandlerError" "boom" None in
  let s := MemoryStore.exec MemoryStore.NewMemoryStore
             [MemoryStore.OpCreateRun sampleRun;
              MemoryStore.OpUpdateRunStatus "run-1" RunStatusFailed
                (Some failure)] in
  WorkflowRun.Error <$> MemoryStore.runs s !! "run-1" = Some (Some failure)
  /\ MemoryStore.GetRun
       (MemoryStore.UpdateRunStatus s "run-1" RunStatusRunning None).1 "run-1"
     = Ok (WorkflowRun.set_Status RunStatusRunning sampleRun).
Proof.
  intros failure s. split; [vm_compute; reflexivity|].
  destruct (UpdateRunStatus_sets_status_and_error s "run-1" RunStatusRunning
              None) as [_ Hknown].
  destruct (Hknown (WorkflowRun.set_Error (Some failure)
                      (WorkflowRun.set_Status RunStatusFailed sampleRun)))
    as (s' & Hup & Hget & _).
  { vm_compute. reflexivity. }
  rewrite Hup. simpl. rewrite Hget. reflexivity.
Defined.

(** X5.  A successful [CreateRun] starts the run with no step data:
    whatever step executions, step outputs or state entries had been
    stored under that run id before the run was created are gone. *)
Theorem CreateRun_resets_run_data (s : MemoryStore.t) (run : WorkflowRun.t) :
  MemoryStore.runs s !! WorkflowRun.RunID run = None ->
  exists s',
    MemoryStore.CreateRun s run = (s', None)
    /\ MemoryStore.ListStepExecutions s' (WorkflowRun.RunID run) = Ok []
    /\ (forall stepID,
          MemoryStore.GetStepExecution s' (WorkflowRun.RunID run) stepID
          = Err ErrStepExecutionNotFound)
    /\ (forall stepID,
          MemoryStore.LoadStepOutput s' (WorkflowRun.RunID run) stepID
          = Err ErrStepOutputNotFound)
    /\ (forall key,
          MemoryStore.LoadState s' (WorkflowRun.RunID run) key
          = Err ErrStateNotFound)
    /\ MemoryStore.GetAllState s' (WorkflowRun.RunID run) = Ok ∅.
Proof.
  intros Hnone. unfold MemoryStore.CreateRun. rewrite Hnone.
  eexists. split; [reflexivity|].
  unfold MemoryStore.ListStepExecutions, MemoryStore.GetStepExecution,
    MemoryStore.LoadStepOutput, MemoryStore.LoadState,
    MemoryStore.GetAllState.
  simpl. rewrite !lookup_insert_eq.
  split; [by rewrite map_to_list_empty|].
  split; [intros; by rewrite lookup_empty|].
  split; [intros; by rewrite lookup_empty|].
  split; [intros; by rewrite lookup_empty|].
  unfold copyMapWith. by rewrite map_fold_empty.
Qed.

Lemma CreateRun_resets_run_data_witness :
  let s := MemoryStore.exec MemoryStore.NewMemoryStore
             [MemoryStore.OpSaveState "run-1" "total" (lit "15");
              MemoryStore.OpSaveStepOutput "run-1" "add" (lit "15")] in
  MemoryStore.LoadState s "run-1" "total" = Ok (lit "15")
  /\ MemoryStore.LoadState (MemoryStore.CreateRun s sampleRun).1 "run-1" "total"
     = Err ErrStateNotFound
  /\ MemoryStore.LoadStepOutput (MemoryStore.CreateRun s sampleRun).1
       "run-1" "add"
     = Err ErrStepOutputNotFound.
Proof.
  intros s. split; [vm_compute; reflexivity|].
  destruct (CreateRun_resets_run_data s sampleRun)
    as (s' & Hc & _ & _ & Hout & Hstate & _).
  { vm_compute. reflexivity. }
  rewrite Hc. simpl. split; [apply Hstate | apply Hout].
Defined.

(** ** The in-memory store: step executions *)

(** X6.  [CreateStepExecution] never fails and never checks that the
    run exists or that the step is new: the record is filed (over any
    earlier record of that step) and read back as given, and no other
    step execution, run, output or state entry is touched. *)
Theorem CreateStepExecution_files_record (s : MemoryStore.t)
    (exec : StepExecution.t) :
  exists s',
    MemoryStore.CreateStepExecution s exec = (s', None)
    /\ MemoryStore.GetStepExecution s'
         (StepExecution.RunID exec) (StepExecution.StepID exec) = Ok exec
    /\ (forall runID stepID,
          (runID, stepID) <> (StepExecution.RunID exec, StepExecution.StepID exec) ->
          MemoryStore.GetStepExecution s' runID stepID
          = MemoryStore.GetStepExecution s runID stepID)
    /\ MemoryStore.runs s' = MemoryStore.runs s
    /\ MemoryStore.stepOutputs s' = MemoryStore.stepOutputs s
    /\ MemoryStore.state s' = MemoryStore.state s.
Proof.
  eexists. split; [reflexivity|].
  unfold MemoryStore.GetStepExecution. simpl.
  split; [by rewrite !lookup_insert_eq, !deepCopyStepExecution_id|].
  split; [|done].
  intros runID stepID Hne.
  destruct (decide (runID = StepExecution.RunID exec)) as [->|Hr].
  - rewrite lookup_insert_eq.
    rewrite lookup_insert_ne by congruence.
    by destruct (MemoryStore.stepExecutions s !! StepExecution.RunID exec).
  - by rewrite lookup_insert_ne.
Qed.

(** X7.  [UpdateStepExecution] is an upsert on every run that has a map
    of step executions: there it does exactly what
    [CreateStepExecution] does, also for a step that was never created.
    Only when the run has no such map does it return
    [ErrStepExecutionNotFound], and then it changes nothing. *)
Theorem UpdateStepExecution_upserts (s : MemoryStore.t)
    (exec : StepExecution.t) :
  (MemoryStore.stepExecutions s !! StepExecution.RunID exec = None ->
   MemoryStore.UpdateStepExecution s exec = (s, Some ErrStepExecutionNotFound))
  /\ (is_Some (MemoryStore.stepExecutions s !! StepExecution.RunID exec) ->
      MemoryStore.UpdateStepExecution s exec
      = MemoryStore.CreateStepExecution s exec).
Proof.
  unfold MemoryStore.UpdateStepExecution, MemoryStore.CreateStepExecution.
  split.
  - by intros ->.
  - by intros [m ->].
Qed.

Lemma UpdateStepExecution_upserts_witness :
  let s := (MemoryStore.CreateRun MemoryStore.NewMemoryStore sampleRun).1 in
  MemoryStore.UpdateStepExecution MemoryStore.NewMemoryStore (sampleExec "add" 0)
  = (MemoryStore.NewMemoryStore, Some ErrStepExecutionNotFound)
  /\ MemoryStore.UpdateStepExecution s (sampleExec "add" 0)
     = MemoryStore.CreateStepExecution s (sampleExec "add" 0).
Proof.
  intros s.
  destruct (UpdateStepExecution_upserts MemoryStore.NewMemoryStore
              (sampleExec "add" 0)) as [Hnone _].
  destruct (UpdateStepExecution_upserts s (sampleExec "add" 0)) as [_ Hsome].
  split.
  - apply Hnone. reflexivity.
  - apply Hsome. eexists. vm_compute. reflexivity.
Defined.

Lemma initialised_step (s : MemoryStore.t) (o : MemoryStore.op) :
  MemoryStore_initialised s ->
  MemoryStore_initialised (MemoryStore.step s o).1.
Proof.
  unfold MemoryStore_initialised. intros Hi.
  assert (Hkeep : forall {V} (m : gmap string V) k v id,
            is_Some (m !! id) -> is_Some (<[k := v]> m !! id)).
  { intros V m k v id Hs. destruct (decide (k = id)) as [->|Hne].
    - rewrite lookup_insert_eq. eauto.
    - by rewrite lookup_insert_ne. }
  destruct o as [run|run|id status err|exec|exec|r k b|r k b|r k]; simpl.
  - unfold MemoryStore.CreateRun.
    destruct (MemoryStore.runs s !! WorkflowRun.RunID run) eqn:Hl; [exact Hi|].
    simpl. intros id.
    destruct (decide (WorkflowRun.RunID run = id)) as [<-|Hne].
    + rewrite !lookup_insert_eq. eauto.
    + rewrite !lookup_insert_ne by done. apply Hi.
  - unfold MemoryStore.UpdateRun.
    destruct (MemoryStore.runs s !! WorkflowRun.RunID run) eqn:Hl; [|exact Hi].
    simpl. intros id Hid. apply Hi.
    destruct (decide (WorkflowRun.RunID run = id)) as [<-|Hne];
      [by rewrite Hl|by rewrite lookup_insert_ne in Hid].
  - unfold MemoryStore.UpdateRunStatus.
    destruct (MemoryStore.runs s !! id) eqn:Hl; [|exact Hi].
    simpl. intros id' Hid. apply Hi.
    destruct (decide (id = id')) as [<-|Hne];
      [by rewrite Hl|by rewrite lookup_insert_ne in Hid].
  - intros id Hid. destruct (Hi id Hid) as (He & Ho & Hs).
    repeat split; try done. by apply Hkeep.
  - unfold MemoryStore.UpdateStepExecution.
    destruct (MemoryStore.stepExecutions s !! StepExecution.RunID exec);
      [|exact Hi].
    simpl. intros id Hid. destruct (Hi id Hid) as (He & Ho & Hs).
    repeat split; try done. by apply Hkeep.
  - intros id Hid. destruct (Hi id Hid) as (He & Ho & Hs).
    repeat split; try done. by apply Hkeep.
  - intros id Hid. destruct (Hi id Hid) as (He & Ho & Hs).
    repeat split; try done. by apply Hkeep.
  - unfold MemoryStore.DeleteState.
    destruct (MemoryStore.state s !! r); [|exact Hi].
    simpl. intros id Hid. destruct (Hi id Hid) as (He & Ho & Hs).
    repeat split; try done. by apply Hkeep.
Qed.

Lemma initialised_reachable (os : list MemoryStore.op) :
  MemoryStore_initialised (MemoryStore.exec MemoryStore.NewMemoryStore os).
Proof.
  assert (Hgen : forall s, MemoryStore_initialised s ->
                   MemoryStore_initialised (MemoryStore.exec s os)).
  { induction os as [|o os IH]; intros s Hs; [done|].
    simpl. apply IH. by apply initialised_step. }
  apply Hgen. intros id [r Hr]. simpl in Hr. by rewrite lookup_empty in Hr.
Qed.

(** X8.  In every state the store reaches from empty, a run that is
    stored has its map of step executions, so for the steps of a stored
    run [UpdateStepExecution] never answers
    [ErrStepExecutionNotFound]: it succeeds and the record is read back
    as given. *)
Theorem UpdateStepExecution_of_stored_run (os : list MemoryStore.op)
    (exec : StepExecution.t) :
  is_Some (MemoryStore.runs (MemoryStore.exec MemoryStore.NewMemoryStore os)
             !! StepExecution.RunID exec) ->
  exists s',
    MemoryStore.UpdateStepExecution
      (MemoryStore.exec MemoryStore.NewMemoryStore os) exec = (s', None)
    /\ MemoryStore.GetStepExecution s'
         (StepExecution.RunID exec) (StepExecution.StepID exec) = Ok exec.
Proof.
  intros Hrun.
  destruct (initialised_reachable os _ Hrun) as ([m Hm] & _ & _).
  unfold MemoryStore.UpdateStepExecution. rewrite Hm.
  eexists. split; [reflexivity|].
  unfold MemoryStore.GetStepExecution. simpl.
  by rewrite !lookup_insert_eq, !deepCopyStepExecution_id.
Qed.

Lemma UpdateStepExecution_of_stored_run_witness :
  let s := MemoryStore.exec MemoryStore.NewMemoryStore
             [MemoryStore.OpCreateRun sampleRun;
              MemoryStore.OpUpdateRunStatus "run-1" RunStatusRunning None] in
  MemoryStore.GetStepExecution
    (MemoryStore.UpdateStepExecution s (sampleExec "add" 0)).1 "run-1" "add"
  = Ok (sampleExec "add" 0).
Proof.
  intros s.
  destruct (UpdateStepExecution_of_stored_run
              [MemoryStore.OpCreateRun sampleRun;
               MemoryStore.OpUpdateRunStatus "run-1" RunStatusRunning None]
              (sampleExec "add" 0)) as (s' & Hup & Hget).
  { eexists. vm_compute. reflexivity. }
  unfold s. by rewrite Hup.
Defined.

(** ** The in-memory store: state entries *)

Lemma LoadState_stored (s : MemoryStore.t) (runID key : string) :
  MemoryStore.LoadState s runID key
  = match MemoryStore.storedState s runID key with
    | Some v => Ok v
    | None => Err ErrStateNotFound
    end.
Proof.
  unfold MemoryStore.LoadState, MemoryStore.storedState.
  destruct (MemoryStore.state s !! runID) as [m|]; simpl; [|done].
  destruct (m !! key); [|done]. by rewrite copy_make.
Qed.

(** X9.  [SaveState] and [DeleteState] never fail and touch one entry
    only: every other (run id, key) loads as before, and runs, step
    executions and step outputs are as before.  Deleting a key that is
    not there, also of a run the store has never seen, is not an error,
    and deleting twice is the same as deleting once. *)
Theorem state_writes_are_local (s : MemoryStore.t)
    (runID key : string) (value : bytes) :
  let saved := MemoryStore.SaveState s runID key value in
  let deleted := MemoryStore.DeleteState s runID key in
  saved.2 = None /\ deleted.2 = None
  /\ MemoryStore.LoadState deleted.1 runID key = Err ErrStateNotFound
  /\ MemoryStore.DeleteState deleted.1 runID key = (deleted.1, None)
  /\ (forall runID' key',
        (runID', key') <> (runID, key) ->
        MemoryStore.LoadState saved.1 runID' key'
        = MemoryStore.LoadState s runID' key'
        /\ MemoryStore.LoadState deleted.1 runID' key'
           = MemoryStore.LoadState s runID' key')
  /\ MemoryStore.runs saved.1 = MemoryStore.runs s
  /\ MemoryStore.stepExecutions saved.1 = MemoryStore.stepExecutions s
  /\ MemoryStore.stepOutputs saved.1 = MemoryStore.stepOutputs s
  /\ MemoryStore.runs deleted.1 = MemoryStore.runs s
  /\ MemoryStore.stepExecutions deleted.1 = MemoryStore.stepExecutions s
  /\ MemoryStore.stepOutputs deleted.1 = MemoryStore.stepOutputs s.
Proof.
  intros saved deleted. unfold saved, deleted.
  unfold MemoryStore.SaveState, MemoryStore.DeleteState.
  destruct (MemoryStore.state s !! runID) as [m|] eqn:Hm; simpl.
  - split; [done|]. split; [done|]. split.
    { unfold MemoryStore.LoadState. simpl.
      by rewrite lookup_insert_eq, lookup_delete_eq. }
    split.
    { rewrite lookup_insert_eq. f_equal.
      destruct s as [r e o st]. simpl in *. f_equal.
      rewrite insert_insert_eq. f_equal.
      apply delete_id. apply lookup_delete_eq. }
    split; [|done].
    intros runID' key' Hne. rewrite !LoadState_stored.
    unfold MemoryStore.storedState. simpl.
    destruct (decide (runID' = runID)) as [->|Hr].
    + rewrite !lookup_insert_eq, Hm. simpl.
      assert (key <> key') by congruence.
      by rewrite lookup_insert_ne, lookup_delete_ne.
    + by rewrite !lookup_insert_ne.
  - split; [done|]. split; [done|]. split.
    { unfold MemoryStore.LoadState. by rewrite Hm. }
    split; [by rewrite Hm|].
    split; [|done].
    intros runID' key' Hne. split; [|done]. rewrite !LoadState_stored.
    unfold MemoryStore.storedState. simpl.
    destruct (decide (runID' = runID)) as [->|Hr].
    + rewrite lookup_insert_eq, Hm. simpl.
      assert (key <> key') by congruence.
      by rewrite lookup_insert_ne, lookup_empty.
    + by rewrite lookup_insert_ne.
Qed.

(** X10.  [GetAllState] returns exactly the entries that [LoadState]
    finds: a key is in the returned map with the bytes [LoadState]
    returns for it, and is absent from the map exactly when [LoadState]
    answers [ErrStateNotFound].  For a run without state the map is
    empty and there is no error. *)
Theorem GetAllState_agrees_with_LoadState (s : MemoryStore.t)
    (runID : string) :
  exists m,
    MemoryStore.GetAllState s runID = Ok m
    /\ forall key,
         MemoryStore.LoadState s runID key
         = match m !! key with
           | Some v => Ok v
           | None => Err ErrStateNotFound
           end.
Proof.
  unfold MemoryStore.GetAllState.
  destruct (MemoryStore.state s !! runID) as [st|] eqn:Hst.
  - eexists. split; [reflexivity|]. intros key.
    rewrite LoadState_stored. unfold MemoryStore.storedState.
    rewrite Hst. simpl. rewrite copyMapWith_fmap, lookup_fmap.
    destruct (st !! key); simpl; [|done]. by rewrite copy_make.
  - exists ∅. split; [done|]. intros key.
    rewrite LoadState_stored. unfold MemoryStore.storedState.
    by rewrite Hst, lookup_empty.
Qed.

(** ** The SQL store: state entries and duplicate rows *)

Lemma foldr_insert_lookup (l : list (string * string * bytes))
    (runID key : string) :
  NoDup l.*1 -> Forall (fun kv => kv.1.1 = runID) l ->
  (forall v, (runID, key, v) ∈ l ->
     foldr (fun kv acc => <[kv.1.2 := kv.2]> acc) (∅ : gmap string bytes) l
       !! key = Some v)
  /\ ((forall v, (runID, key, v) ∉ l) ->
      foldr (fun kv acc => <[kv.1.2 := kv.2]> acc) (∅ : gmap string bytes) l
        !! key = None).
Proof.
  intros Hnd Hall. induction l as [|[[r k] v'] l IH].
  - split; [intros v Hin; by apply elem_of_nil in Hin | done].
  - simpl in *. apply NoDup_cons in Hnd as [Hnin Hnd].
    apply Forall_cons in Hall as [Hr Hall]. simpl in Hr. subst r.
    destruct (IH Hnd Hall) as [IHin IHout]. split.
    + intros v [Heq|Hin]%elem_of_cons.
      * injection Heq as <- <-. by rewrite lookup_insert_eq.
      * destruct (decide (k = key)) as [->|Hne].
        -- exfalso. apply Hnin. apply list_elem_of_fmap.
           exists (runID, key, v). by split.
        -- rewrite lookup_insert_ne by done. by apply IHin.
    + intros Hno. destruct (decide (k = key)) as [->|Hne].
      * exfalso. apply (Hno v'). apply elem_of_cons. by left.
      * rewrite lookup_insert_ne by done. apply IHout.
        intros v Hv. apply (Hno v). apply elem_of_cons. by right.
Qed.

(** X11.  On an open database, the SQL store's [GetAllState] returns
    the rows of the run and of no other run: the returned map holds
    under each key exactly the value of the row (run id, key), which is
    what [LoadState] returns for it. *)
Theorem LibSQLStore_GetAllState_rows (s : LibSQLStore.t) (runID : string) :
  LibSQLStore.closed s = false ->
  exists m,
    LibSQLStore.GetAllState s runID = Ok m
    /\ (forall key, m !! key = LibSQLStore.workflow_state s !! (runID, key))
    /\ (forall key,
          LibSQLStore.LoadState s runID key
          = match m !! key with
            | Some v => Ok v
            | None => Err ErrStateNotFound
            end).
Proof.
  intros Hopen. unfold LibSQLStore.GetAllState, LibSQLStore.LoadState.
  rewrite Hopen. eexists. split; [reflexivity|].
  set (rows := filter (fun kv : string * string * bytes => kv.1.1 = runID)
                 (map_to_list (LibSQLStore.workflow_state s))).
  assert (Hnd : NoDup rows.*1).
  { apply NoDup_fmap_fst.
    - intros k v1 v2 [_ H1%elem_of_map_to_list]%list_elem_of_filter
        [_ H2%elem_of_map_to_list]%list_elem_of_filter. congruence.
    - apply NoDup_filter, NoDup_map_to_list. }
  assert (Hall : Forall (fun kv : string * string * bytes => kv.1.1 = runID) rows).
  { apply Forall_forall. by intros kv [Hr _]%list_elem_of_filter. }
  assert (Hin : forall key v,
            (runID, key, v) ∈ rows
            <-> LibSQLStore.workflow_state s !! (runID, key) = Some v).
  { intros key v. unfold rows. rewrite list_elem_of_filter,
      elem_of_map_to_list. simpl. tauto. }
  assert (Hlook : forall key,
    foldr (fun kv acc => <[kv.1.2 := kv.2]> acc) (∅ : gmap string bytes) rows
      !! key = LibSQLStore.workflow_state s !! (runID, key)).
  { intros key. destruct (foldr_insert_lookup rows runID key Hnd Hall)
      as [Hsome Hnone].
    destruct (LibSQLStore.workflow_state s !! (runID, key)) as [v|] eqn:Hv.
    - apply Hsome. by apply Hin.
    - apply Hnone. intros v Hv'. apply Hin in Hv'. congruence. }
  split; [exact Hlook|].
  intros key. rewrite Hlook.
  by destruct (LibSQLStore.workflow_state s !! (runID, key)).
Qed.

Lemma LibSQLStore_GetAllState_rows_witness :
  let s := (LibSQLStore.SaveState
              (LibSQLStore.SaveState LibSQLStore.NewLibSQLStore
                 "run-1" "total" (lit "15")).1
              "run-2" "total" (lit "99")).1 in
  exists m,
    LibSQLStore.GetAllState s "run-1" = Ok m
    /\ m !! "total" = Some (lit "15").
Proof.
  intros s.
  destruct (LibSQLStore_GetAllState_rows s "run-1") as (m & Hm & Hrows & _).
  { reflexivity. }
  exists m. split; [exact Hm|]. rewrite Hrows. vm_compute. reflexivity.
Defined.

(** X12.  On an open database, the SQL store's [CreateStepExecution]
    refuses a second row for a (run id, step id) that has one: it
    returns an error and the stored row stays as it was.  (The in-memory
    store files the new record over the old one instead.) *)
Theorem LibSQLStore_CreateStepExecution_duplicate (s : LibSQLStore.t)
    (exec : StepExecution.t) :
  LibSQLStore.closed s = false ->
  is_Some (LibSQLStore.step_executions s
             !! (StepExecution.RunID exec, StepExecution.StepID exec)) ->
  exists err,
    LibSQLStore.CreateStepExecution s exec = (s, Some err)
    /\ forall old,
         LibSQLStore.GetStepExecution s
           (StepExecution.RunID exec) (StepExecution.StepID exec) = Ok old ->
         LibSQLStore.GetStepExecution
           (LibSQLStore.CreateStepExecution s exec).1
           (StepExecution.RunID exec) (StepExecution.StepID exec) = Ok old.
Proof.
  intros Hopen [row Hrow]. unfold LibSQLStore.CreateStepExecution.
  rewrite Hopen, Hrow. eexists. split; [reflexivity|]. by intros old.
Qed.

Lemma LibSQLStore_CreateStepExecution_duplicate_witness :
  let s := (LibSQLStore.CreateStepExecution LibSQLStore.NewLibSQLStore
              (sampleExec "add" 0)).1 in
  (exists err,
     LibSQLStore.CreateStepExecution s (sampleExec "add" 7) = (s, Some err))
  /\ MemoryStore.GetStepExecution
       (MemoryStore.CreateStepExecution
          (MemoryStore.CreateStepExecution MemoryStore.NewMemoryStore
             (sampleExec "add" 0)).1
          (sampleExec "add" 7)).1 "run-1" "add"
     = Ok (sampleExec "add" 7).
Proof.
  intros s. split.
  - destruct (LibSQLStore_CreateStepExecution_duplicate s (sampleExec "add" 7))
      as (err & Herr & _).
    + reflexivity.
    + eexists. vm_compute. reflexivity.
    + by exists err.
  - vm_compute. reflexivity.
Defined.

(** ** The in-memory store: listing and counting runs *)

Lemma runsKeyed_step (s : MemoryStore.t) (o : MemoryStore.op) :
  MemoryStore_runsKeyed s -> MemoryStore_runsKeyed (MemoryStore.step s o).1.
Proof.
  unfold MemoryStore_runsKeyed. intros Hk.
  destruct o as [run|run|id status err|exec|exec|r k b|r k b|r k]; simpl;
    try exact Hk.
  - unfold MemoryStore.CreateRun.
    destruct (MemoryStore.runs s !! WorkflowRun.RunID run); [exact Hk|].
    simpl. intros id r.
    destruct (decide (WorkflowRun.RunID run = id)) as [<-|Hne].
    + rewrite lookup_insert_eq, deepCopyRun_id. by intros [= <-].
    + rewrite lookup_insert_ne by done. apply Hk.
  - unfold MemoryStore.UpdateRun.
    destruct (MemoryStore.runs s !! WorkflowRun.RunID run); [|exact Hk].
    simpl. intros id r.
    destruct (decide (WorkflowRun.RunID run = id)) as [<-|Hne].
    + rewrite lookup_insert_eq, deepCopyRun_id. by intros [= <-].
    + rewrite lookup_insert_ne by done. apply Hk.
  - unfold MemoryStore.UpdateRunStatus.
    destruct (MemoryStore.runs s !! id) as [run|] eqn:Hrun; [|exact Hk].
    simpl. intros id' r.
    destruct (decide (id = id')) as [<-|Hne].
    + rewrite lookup_insert_eq. intros [= <-].
      destruct err; simpl; by apply Hk.
    + rewrite lookup_insert_ne by done. apply Hk.
  - unfold MemoryStore.UpdateStepExecution.
    by destruct (MemoryStore.stepExecutions s !! StepExecution.RunID exec).
  - unfold MemoryStore.DeleteState.
    by destruct (MemoryStore.state s !! r).
Qed.

Lemma runsKeyed_reachable (os : list MemoryStore.op) :
  MemoryStore_runsKeyed (MemoryStore.exec MemoryStore.NewMemoryStore os).
Proof.
  assert (Hgen : forall s, MemoryStore_runsKeyed s ->
                   MemoryStore_runsKeyed (MemoryStore.exec s os)).
  { induction os as [|o os IH]; intros s Hs; [done|].
    simpl. apply IH. by apply runsKeyed_step. }
  apply Hgen. intros id r Hr. simpl in Hr. by rewrite lookup_empty in Hr.
Qed.

Lemma sort_insert_ext {A} (less1 less2 : A -> A -> bool) (x : A) (l : list A) :
  (forall a b, less1 a b = less2 a b) ->
  sort_insert less1 x l = sort_insert less2 x l.
Proof.
  intros Hext. induction l as [|y l IH]; simpl; [done|].
  by rewrite Hext, IH.
Qed.

Lemma sort_Slice_ext {A} (less1 less2 : A -> A -> bool) (l : list A) :
  (forall a b, less1 a b = less2 a b) ->
  sort_Slice less1 l = sort_Slice less2 l.
Proof.
  intros Hext. unfold sort_Slice. induction l as [|x l IH]; simpl; [done|].
  by rewrite IH, (sort_insert_ext less1 less2).
Qed.

Lemma sort_Slice_createdAfter_sorted (l : list WorkflowRun.t) :
  StronglySorted
    (fun a b => WorkflowRun.CreatedAt b <= WorkflowRun.CreatedAt a)
    (sort_Slice createdAfter l).
Proof.
  rewrite (sort_Slice_ext createdAfter
             (fun a b => - WorkflowRun.CreatedAt a <? - WorkflowRun.CreatedAt b)).
  - pose proof (sort_Slice_sorted (fun r => - WorkflowRun.CreatedAt r) l) as Hs.
    induction Hs as [|x xs Hs IH Hall]; constructor; [done|].
    eapply Forall_impl; [exact Hall|]. simpl. lia.
  - intros a b. unfold createdAfter.
    destruct (Z.ltb_spec (WorkflowRun.CreatedAt b) (WorkflowRun.CreatedAt a)),
      (Z.ltb_spec (- WorkflowRun.CreatedAt a) (- WorkflowRun.CreatedAt b));
      try done; lia.
Qed.

Lemma StronglySorted_take {A} (R : A -> A -> Prop) (n : nat) (l : list A) :
  StronglySorted R l -> StronglySorted R (take n l).
Proof.
  intros Hs. revert n. induction Hs as [|x l Hs IH Hall]; intros [|n]; simpl;
    try constructor.
  - apply IH.
  - rewrite Forall_forall in Hall |- *. intros y Hy. apply Hall.
    eapply elem_of_sublist; [exact Hy|]. apply sublist_take.
Qed.

Lemma applyLimit_sublist {A} (limit : Z) (l : list A) :
  applyLimit limit l `sublist_of` l.
Proof.
  unfold applyLimit.
  destruct ((0 <? limit) && (limit <? Z.of_nat (length l))); [|done].
  apply sublist_take.
Qed.

Lemma applyLimit_length {A} (limit : Z) (l : list A) :
  0 < limit -> Z.of_nat (length (applyLimit limit l)) <= limit.
Proof.
  intros Hpos. unfold applyLimit.
  destruct (Z.ltb_spec 0 limit) as [_|?]; [|lia]. simpl.
  destruct (Z.ltb_spec limit (Z.of_nat (length l))) as [Hlt|Hge]; [|lia].
  rewrite length_take. lia.
Qed.

Lemma applyLimit_unlimited {A} (limit : Z) (l : list A) :
  limit <= 0 -> applyLimit limit l = l.
Proof.
  intros Hle. unfold applyLimit.
  by destruct (Z.ltb_spec 0 limit) as [?|_]; [lia|].
Qed.

Lemma filteredOut_false (f : RunFilter.t) (run : WorkflowRun.t) :
  filteredOut f run = false
  <-> (RunFilter.WorkflowID f = ""
       \/ WorkflowRun.WorkflowID run = RunFilter.WorkflowID f)
      /\ (RunFilter.Status f = None
          \/ RunFilter.Status f = Some (WorkflowRun.Status run))
      /\ (RunFilter.ResourceID f = ""
          \/ WorkflowRun.ResourceID run = RunFilter.ResourceID f).
Proof.
  unfold filteredOut.
  destruct (String.eqb_spec (RunFilter.WorkflowID f) "") as [Hw|Hw],
    (String.eqb_spec (WorkflowRun.WorkflowID run) (RunFilter.WorkflowID f))
      as [Hw'|Hw'],
    (String.eqb_spec (RunFilter.ResourceID f) "") as [Hr|Hr],
    (String.eqb_spec (WorkflowRun.ResourceID run) (RunFilter.ResourceID f))
      as [Hr'|Hr'];
    destruct (RunFilter.Status f) as [st|]; simpl;
    try destruct (String.eqb_spec (WorkflowRun.Status run) st) as [Hs|Hs];
    simpl; split; try done; try (intros _; repeat split; auto; fail);
    try (intros (H1 & H2 & H3); destruct H1, H2, H3; congruence);
    try (intros _; repeat split; auto; right; congruence).
Qed.

Lemma ListRuns_sorted_kept (s : MemoryStore.t) (f : RunFilter.t) :
  sort_Slice createdAfter
    (deepCopyRun <$> filter (fun run => filteredOut f run = false)
                       (map_to_list (MemoryStore.runs s)).*2)
  ≡ₚ filter (fun run => filteredOut f run = false)
       (map_to_list (MemoryStore.runs s)).*2.
Proof.
  rewrite sort_Slice_perm.
  rewrite (list_fmap_ext deepCopyRun id).
  - by rewrite list_fmap_id.
  - intros i x _. apply deepCopyRun_id.
Qed.

Lemma stored_run_values (s : MemoryStore.t) (run : WorkflowRun.t) :
  MemoryStore_runsKeyed s ->
  run ∈ (map_to_list (MemoryStore.runs s)).*2
  <-> MemoryStore.GetRun s (WorkflowRun.RunID run) = Ok run.
Proof.
  intros Hk. rewrite GetRun_ok_inv, list_elem_of_fmap. split.
  - intros ([id r] & -> & Hin%elem_of_map_to_list). simpl.
    by rewrite (Hk id r Hin).
  - intros Hrun. exists (WorkflowRun.RunID run, run). split; [done|].
    by apply elem_of_map_to_list.
Qed.

(** X13.  In every state the store reaches from empty, [ListRuns]
    returns stored runs only, each at most once and each passing the
    filter (an empty workflow id or resource id and a nil status do not
    filter), newest first by [CreatedAt]; with a positive limit it
    returns at most that many, and with a limit of zero or less it
    returns every stored run that passes the filter. *)
Theorem ListRuns_filtered_newest_first (os : list MemoryStore.op)
    (f : RunFilter.t) :
  exists l,
    MemoryStore_ListRuns (MemoryStore.exec MemoryStore.NewMemoryStore os) f
    = Ok l
    /\ StronglySorted
         (fun a b => WorkflowRun.CreatedAt b <= WorkflowRun.CreatedAt a) l
    /\ NoDup (WorkflowRun.RunID <$> l)
    /\ (forall run, run ∈ l ->
          MemoryStore.GetRun (MemoryStore.exec MemoryStore.NewMemoryStore os)
            (WorkflowRun.RunID run) = Ok run
          /\ (RunFilter.WorkflowID f = ""
              \/ WorkflowRun.WorkflowID run = RunFilter.WorkflowID f)
          /\ (RunFilter.Status f = None
              \/ RunFilter.Status f = Some (WorkflowRun.Status run))
          /\ (RunFilter.ResourceID f = ""
              \/ WorkflowRun.ResourceID run = RunFilter.ResourceID f))
    /\ (0 < RunFilter.Limit f -> Z.of_nat (length l) <= RunFilter.Limit f)
    /\ (RunFilter.Limit f <= 0 ->
        forall run,
          MemoryStore.GetRun (MemoryStore.exec MemoryStore.NewMemoryStore os)
            (WorkflowRun.RunID run) = Ok run ->
          filteredOut f run = false ->
          run ∈ l).
Proof.
  set (s := MemoryStore.exec MemoryStore.NewMemoryStore os).
  pose proof (runsKeyed_reachable os) as Hk. fold s in Hk.
  unfold MemoryStore_ListRuns. eexists. split; [reflexivity|].
  set (kept := filter (fun run => filteredOut f run = false)
                 (map_to_list (MemoryStore.runs s)).*2).
  set (sorted := sort_Slice createdAfter (deepCopyRun <$> kept)).
  assert (Hperm : sorted ≡ₚ kept) by apply ListRuns_sorted_kept.
  assert (Hsub : applyLimit (RunFilter.Limit f) sorted `sublist_of` sorted)
    by apply applyLimit_sublist.
  assert (Hkeys : NoDup (WorkflowRun.RunID <$> kept)).
  { assert (Hs1 : WorkflowRun.RunID <$> kept
                  `sublist_of` WorkflowRun.RunID
                                 <$> (map_to_list (MemoryStore.runs s)).*2)
      by apply fmap_sublist, sublist_filter.
    assert (Hn1 : NoDup (WorkflowRun.RunID
                           <$> (map_to_list (MemoryStore.runs s)).*2)).
    { rewrite <- list_fmap_compose.
      rewrite (list_fmap_ext _ fst _).
      + apply NoDup_fst_map_to_list.
      + intros i [id r] Hi. simpl.
        apply list_elem_of_lookup_2, elem_of_map_to_list in Hi.
        by apply Hk. }
    eapply sublist_NoDup; [exact Hn1 | exact Hs1]. }
  split; [|split; [|split; [|split]]].
  - unfold applyLimit.
    destruct ((0 <? RunFilter.Limit f)
              && (RunFilter.Limit f <? Z.of_nat (length sorted))).
    + apply StronglySorted_take, sort_Slice_createdAfter_sorted.
    + apply sort_Slice_createdAfter_sorted.
  - assert (Hs2 : WorkflowRun.RunID <$> applyLimit (RunFilter.Limit f) sorted
                  `sublist_of` WorkflowRun.RunID <$> sorted)
      by (by apply fmap_sublist).
    apply (sublist_NoDup _ (WorkflowRun.RunID <$> sorted));
      [by rewrite Hperm | exact Hs2].
  - intros run Hin.
    assert (Hkept : run ∈ kept).
    { rewrite <- Hperm. by eapply elem_of_sublist. }
    apply list_elem_of_filter in Hkept as [Hf Hv].
    split; [by apply stored_run_values|]. by apply filteredOut_false.
  - apply applyLimit_length.
  - intros Hlim run Hrun Hf. rewrite applyLimit_unlimited by done.
    rewrite Hperm. apply list_elem_of_filter. split; [done|].
    by apply stored_run_values.
Qed.

Lemma count_foldl (p : WorkflowRun.t -> bool) (l : list WorkflowRun.t)
    (n : Z) :
  foldl (fun count run => if p run then count + 1 else count) n l
  = n + Z.of_nat (length (filter (fun run => p run = true) l)).
Proof.
  revert n. induction l as [|x l IH]; intros n; simpl; [lia|].
  rewrite IH. rewrite filter_cons.
  destruct (p x) eqn:Hp.
  - rewrite decide_True by done. simpl. lia.
  - rewrite decide_False by congruence. done.
Qed.

(** X14.  [CountRunsByStatus] counts the stored runs whose resource id
    and status are the given ones.  For a resource id that is not empty
    this is the number of runs that [ListRuns] returns for that resource
    id and status without a limit. *)
Theorem CountRunsByStatus_counts_listed (s : MemoryStore.t)
    (resourceID : string) (status : RunStatus) :
  resourceID <> "" ->
  exists l,
    MemoryStore_ListRuns s (RunFilter.mk "" (Some status) resourceID 0) = Ok l
    /\ MemoryStore_CountRunsByStatus s resourceID status
       = Ok (Z.of_nat (length l))
    /\ forall run, run ∈ l ->
         WorkflowRun.ResourceID run = resourceID
         /\ WorkflowRun.Status run = status.
Proof.
  intros Hres. unfold MemoryStore_ListRuns. eexists. split; [reflexivity|].
  simpl RunFilter.Limit. rewrite applyLimit_unlimited by lia.
  pose proof (ListRuns_sorted_kept s (RunFilter.mk "" (Some status) resourceID 0))
    as Hperm.
  assert (Hiff : forall run,
    filteredOut (RunFilter.mk "" (Some status) resourceID 0) run = false
    <-> String.eqb (WorkflowRun.ResourceID run) resourceID
        && String.eqb (WorkflowRun.Status run) status = true).
  { intros run. rewrite filteredOut_false. simpl.
    rewrite andb_true_iff, !String.eqb_eq. split.
    - intros (_ & [?|Hs] & [?|Hr]); try done. split; congruence.
    - intros [Hr Hs]. repeat split; auto. right. by rewrite Hs. }
  split.
  - unfold MemoryStore_CountRunsByStatus. f_equal.
    rewrite count_foldl, Hperm, Z.add_0_l. do 2 f_equal.
    apply list_filter_iff. intros run. symmetry. apply Hiff.
  - intros run Hin. rewrite Hperm in Hin.
    apply list_elem_of_filter in Hin as [Hf _]. apply Hiff in Hf.
    apply andb_true_iff in Hf as [Hr Hs].
    by apply String.eqb_eq in Hr, Hs.
Qed.

Lemma CountRunsByStatus_counts_listed_witness :
  let s := MemoryStore.exec MemoryStore.NewMemoryStore
             [MemoryStore.OpCreateRun sampleRun;
              MemoryStore.OpUpdateRunStatus "run-1" RunStatusRunning None] in
  MemoryStore_CountRunsByStatus s "res-1" RunStatusRunning = Ok 1
  /\ MemoryStore_CountRunsByStatus s "res-1" RunStatusPending = Ok 0.
Proof.
  intros s.
  destruct (CountRunsByStatus_counts_listed s "res-1" RunStatusRunning)
    as (l1 & Hl1 & Hc1 & _); [discriminate|].
  destruct (CountRunsByStatus_counts_listed s "res-1" RunStatusPending)
    as (l2 & Hl2 & Hc2 & _); [discriminate|].
  vm_compute in Hl1. injection Hl1 as <-.
  vm_compute in Hl2. injection Hl2 as <-.
  split; [exact Hc1 | exact Hc2].
Defined.

(** ** The state accessor: more of its behaviour *)

Lemma map_fold_insert_union (data base : gmap string bytes) :
  map_fold (fun k v acc => <[k := v]> acc) base data = data ∪ base.
Proof.
  induction data as [|k v m Hk Hfold IH] using map_first_key_ind.
  - by rewrite map_fold_empty, (left_id_L ∅ (∪)).
  - rewrite map_fold_insert_first_key by done.
    by rewrite IH, insert_union_l.
Qed.

(** X15.  [GetAll] returns what the store's [GetAllState] returns and
    writes every returned entry into the cache, over whatever the cache
    held for that key; entries of the cache under keys that were not
    returned stay (also when the store no longer has them).  Afterwards
    [Get] and [Has] for a returned key are answered from the cache.  If
    the store call fails, the accessor is left as it was. *)
Theorem stateAccessor_GetAll_refreshes_cache {S : Type} `{WorkflowStore S}
    (a : stateAccessor) (s : S) :
  (forall err,
     GetAllState s (st_runID a) = Err err ->
     stateAccessor_GetAll a s = (a, Err (ErrWrap "failed to get all state" err)))
  /\ (forall data,
        GetAllState s (st_runID a) = Ok data ->
        exists a',
          stateAccessor_GetAll a s = (a', Ok data)
          /\ st_runID a' = st_runID a
          /\ cache a' = data ∪ cache a
          /\ forall key v,
               data !! key = Some v ->
               forall (s2 : S),
                 stateAccessor_Has a' s2 key = true
                 /\ forall (V : Type) (J : JSON V),
                      stateAccessor_Get (V := V) a' s2 key
                      = (a', json_Unmarshal v)).
Proof.
  unfold stateAccessor_GetAll. split.
  - by intros err ->.
  - intros data ->. eexists. split; [reflexivity|]. simpl.
    split; [done|]. split; [apply map_fold_insert_union|].
    intros key v Hv s2.
    assert (Hc : map_fold (fun k v acc => <[k := v]> acc) (cache a) data !! key
                 = Some v).
    { rewrite map_fold_insert_union. by apply lookup_union_Some_l. }
    split.
    + unfold stateAccessor_Has. simpl. by rewrite Hc.
    + intros V J. unfold stateAccessor_Get. simpl. by rewrite Hc.
Qed.

(** X16.  What one state accessor has set, a fresh state accessor of
    the same run reads: after a successful [Set(k, v)] of a value that
    round-trips through JSON, [Get(k)] on a new accessor for that run
    loads the bytes from the store, caches them and returns v. *)
Theorem state_set_is_read_by_fresh_accessor
    {S : Type} `{StateStoreContract S} {V : Type} `{JSON V}
    (a a1 : stateAccessor) (s s1 : S) (key : string) (value : V) :
  json_roundtrips value ->
  stateAccessor_Set a s key value = (a1, s1, None) ->
  exists b data,
    stateAccessor_Get (NewStateAccessor (st_runID a)) s1 key = (b, Ok value)
    /\ json_Marshal value = Ok data
    /\ cache b = {[ key := data ]}.
Proof.
  intros (data & Hm & Hu) Hset.
  rewrite (stateAccessor_Set_marshalled _ _ _ _ _ Hm) in Hset.
  destruct (SaveState s (st_runID a) key data) as [s' [err|]] eqn:Hsave;
    [done|].
  injection Hset as _ <-.
  pose proof (load_after_save s s' (st_runID a) key data Hsave) as Hload.
  eexists _, data. split; [|split; [exact Hm|]].
  - unfold stateAccessor_Get, NewStateAccessor. simpl.
    rewrite lookup_empty, Hload, Hu. reflexivity.
  - simpl. by rewrite insert_empty.
Qed.

Lemma state_set_is_read_by_fresh_accessor_witness :
  let s := (MemoryStore.CreateRun MemoryStore.NewMemoryStore sampleRun).1 in
  let r := stateAccessor_Set (NewStateAccessor "run-1") s "done" true in
  (stateAccessor_Get (V := bool) (NewStateAccessor "run-1") r.1.2 "done").2
  = Ok true.
Proof.
  intros s r.
  destruct (state_set_is_read_by_fresh_accessor (NewStateAccessor "run-1")
              r.1.1 s r.1.2 "done" true) as (b & data & Hget & _).
  - exists (lit "true"). split; reflexivity.
  - vm_compute. reflexivity.
  - exact (f_equal snd Hget).
Defined.

(** X17.  Right after a successful [Delete(k)], [Get(k)] fails with the
    store's [ErrStateNotFound] wrapped in the accessor's message, and
    leaves the cache without an entry for k. *)
Theorem stateAccessor_Get_after_Delete
    {S : Type} `{StateStoreContract S} {V : Type} `{JSON V}
    (a a1 : stateAccessor) (s s1 : S) (key : string) :
  stateAccessor_Delete a s key = (a1, s1, None) ->
  stateAccessor_Get (V := V) a1 s1 key
  = (a1, Err (ErrWrap ("failed to load state for key " +:+ key)
                ErrStateNotFound))
  /\ cache a1 !! key = None.
Proof.
  unfold stateAccessor_Delete.
  destruct (DeleteState s (st_runID a) key) as [s' [err|]] eqn:Hd; [done|].
  intros [= <- <-]. unfold stateAccessor_Get. simpl.
  rewrite lookup_delete_eq.
  by rewrite (load_after_delete s s' (st_runID a) key Hd).
Qed.

Lemma stateAccessor_Get_after_Delete_witness :
  let s := (MemoryStore.SaveState MemoryStore.NewMemoryStore
              "run-1" "done" (lit "true")).1 in
  let d := stateAccessor_Delete (NewStateAccessor "run-1") s "done" in
  (stateAccessor_Get (V := bool) d.1.1 d.1.2 "done").2
  = Err (ErrWrap "failed to load state for key done" ErrStateNotFound).
Proof.
  intros s d.
  destruct (stateAccessor_Get_after_Delete (V := bool)
              (NewStateAccessor "run-1") d.1.1 s d.1.2 "done") as [Hget _].
  - vm_compute. reflexivity.
  - by rewrite Hget.
Defined.

(** X18.  [Get] stores the loaded bytes in the cache before it decodes
    them: when decoding fails, [Get] returns the error, yet from then on
    [Has] is true for the key and every [Get] of it decodes those same
    bytes, whatever the store holds by then. *)
Theorem stateAccessor_Get_caches_before_decoding
    {S : Type} `{WorkflowStore S} {V : Type} `{JSON V}
    (a : stateAccessor) (s : S) (key : string) (data : bytes) (err : error) :
  cache a !! key = None ->
  LoadState s (st_runID a) key = Ok data ->
  json_Unmarshal (V := V) data = Err err ->
  exists a',
    stateAccessor_Get (V := V) a s key
    = (a', Err (ErrWrap ("failed to unmarshal state for key " +:+ key) err))
    /\ cache a' = <[key := data]> (cache a)
    /\ forall s2 : S,
         stateAccessor_Has a' s2 key = true
         /\ forall (W : Type) (J : JSON W),
              stateAccessor_Get (V := W) a' s2 key = (a', json_Unmarshal data).
Proof.
  intros Hc Hl Hu. unfold stateAccessor_Get at 1. rewrite Hc, Hl, Hu.
  eexists. split; [reflexivity|]. split; [done|].
  intros s2. split.
  - unfold stateAccessor_Has. simpl. by rewrite lookup_insert_eq.
  - intros W J. unfold stateAccessor_Get. simpl. by rewrite lookup_insert_eq.
Qed.

Lemma stateAccessor_Get_caches_before_decoding_witness :
  let s := (MemoryStore.SaveState MemoryStore.NewMemoryStore
              "run-1" "count" (lit "15")).1 in
  let r := stateAccessor_Get (V := bool) (NewStateAccessor "run-1") s "count" in
  is_ok r.2 = false
  /\ stateAccessor_Has r.1 MemoryStore.NewMemoryStore "count" = true.
Proof.
  intros s r.
  destruct (stateAccessor_Get_caches_before_decoding (V := bool)
              (NewStateAccessor "run-1") s "count" (lit "15")
              (Errorf "json: cannot unmarshal into Go value of type bool"))
    as (a' & Hget & _ & Hlater).
  - reflexivity.
  - vm_compute. reflexivity.
  - vm_compute. reflexivity.
  - unfold r. rewrite Hget. simpl. split; [done|].
    apply (Hlater MemoryStore.NewMemoryStore).
Defined.

(** ** The step accessor: more of its behaviour *)

(** X19.  A miss is not cached.  When neither the output cache nor the
    in-memory store has an output for the step, [GetOutput] fails with
    [ErrStepOutputNotFound] wrapped, [HasOutput] is false, and the
    accessor is unchanged; once the output has been saved, [HasOutput]
    on the same accessor is true and [GetOutput] decodes the saved
    bytes. *)
Theorem stepAccessor_miss_is_not_cached {V : Type} `{JSON V}
    (a : stepAccessor) (s : MemoryStore.t) (stepID : string) (b : bytes) :
  outputCache a !! stepID = None ->
  MemoryStore.storedStepOutput s (sa_runID a) stepID = None ->
  stepAccessor_GetOutput (V := V) a s stepID
  = (a, Err (ErrWrap ("failed to load output for step " +:+ stepID)
               ErrStepOutputNotFound))
  /\ stepAccessor_HasOutput a s stepID = false
  /\ stepAccessor_HasOutput a
       (MemoryStore.SaveStepOutput s (sa_runID a) stepID b).1 stepID = true
  /\ (stepAccessor_GetOutput (V := V) a
        (MemoryStore.SaveStepOutput s (sa_runID a) stepID b).1 stepID).2
     = match json_Unmarshal b with
       | Ok v => Ok v
       | Err err =>
           Err (ErrWrap ("failed to unmarshal output for step " +:+ stepID) err)
       end.
Proof.
  intros Hc Hs.
  assert (Hmiss : MemoryStore.LoadStepOutput s (sa_runID a) stepID
                  = Err ErrStepOutputNotFound).
  { unfold MemoryStore.storedStepOutput in Hs.
    unfold MemoryStore.LoadStepOutput.
    destruct (MemoryStore.stepOutputs s !! sa_runID a) as [m|]; simpl in *;
      [by rewrite Hs|done]. }
  destruct (MemoryStore_save_load_output s (sa_runID a) stepID b)
    as (s' & Hsave & Hload).
  rewrite Hsave. simpl.
  unfold stepAccessor_GetOutput, stepAccessor_HasOutput. rewrite Hc. simpl.
  rewrite Hmiss, Hload. simpl.
  repeat split. by destruct (json_Unmarshal b).
Qed.

Lemma stepAccessor_miss_is_not_cached_witness :
  let a := NewStepAccessor "run-1" in
  let s := (MemoryStore.CreateRun MemoryStore.NewMemoryStore sampleRun).1 in
  stepAccessor_HasOutput a s "check" = false
  /\ (stepAccessor_GetOutput (V := bool) a
        (MemoryStore.SaveStepOutput s "run-1" "check" (lit "true")).1
        "check").2 = Ok true.
Proof.
  intros a s.
  destruct (stepAccessor_miss_is_not_cached (V := bool) a s "check"
              (lit "true")) as (_ & Hhas & _ & Hget).
  - reflexivity.
  - vm_compute. reflexivity.
  - split; [exact Hhas | exact Hget].
Defined.

Section StepAccessorInputFacts.
Context {S : Type} `{WorkflowStore S}.

Lemma stepAccessor_GetInput_ok {V} `{JSON V} (a a1 : stepAccessor) (s : S)
    (stepID : string) (v : V) :
  stepAccessor_GetInput a s stepID = (a1, Ok v) ->
  exists data,
    json_Unmarshal data = Ok v /\ inputCache a1 !! stepID = Some data.
Proof.
  unfold stepAccessor_GetInput.
  destruct (inputCache a !! stepID) as [data|] eqn:Hc.
  - intros [= <- Hu]. eauto.
  - destruct (GetStepExecution s (sa_runID a) stepID) as [exec|err]; [|done].
    destruct (StepExecution.Input exec) as [input|]; [|done].
    destruct (json_Unmarshal input) as [v'|err] eqn:Hu; [|done].
    intros [= <- <-]. exists input. simpl. by rewrite lookup_insert_eq.
Qed.

Lemma stepAccessor_GetInput_keeps_input {V} `{JSON V} (a a1 : stepAccessor)
    (s : S) (stepID' : string) (r : result V) (stepID : string)
    (data : bytes) :
  stepAccessor_GetInput a s stepID' = (a1, r) ->
  inputCache a !! stepID = Some data ->
  inputCache a1 !! stepID = Some data.
Proof.
  unfold stepAccessor_GetInput. intros Hget Hc.
  destruct (inputCache a !! stepID') as [d|] eqn:Hc'.
  - by injection Hget as <- _.
  - assert (stepID' <> stepID) by congruence.
    destruct (GetStepExecution s (sa_runID a) stepID') as [exec|err];
      [|by injection Hget as <- _].
    destruct (StepExecution.Input exec) as [input|];
      [|by injection Hget as <- _].
    destruct (json_Unmarshal input); injection Hget as <- _; simpl;
      by rewrite lookup_insert_ne.
Qed.

Lemma stepAccessor_GetOutput_keeps_input {V} `{JSON V} (a a1 : stepAccessor)
    (s : S) (stepID' : string) (r : result V) :
  stepAccessor_GetOutput a s stepID' = (a1, r) ->
  inputCache a1 = inputCache a.
Proof.
  unfold stepAccessor_GetOutput. intros Hget.
  destruct (outputCache a !! stepID'); [by injection Hget as <- _|].
  destruct (LoadStepOutput s (sa_runID a) stepID') as [d|err];
    [|by injection Hget as <- _].
  by destruct (json_Unmarshal d); injection Hget as <- _.
Qed.

Lemma stepAccessor_calls_keep_input (a a' : stepAccessor) (stepID : string)
    (data : bytes) :
  stepAccessor_calls a a' ->
  inputCache a !! stepID = Some data ->
  inputCache a' !! stepID = Some data.
Proof.
  induction 1 as [a|V J a a1 a2 s id r Hget _ IH|V J a a1 a2 s id r Hget _ IH];
    intros Hc.
  - exact Hc.
  - apply IH. by rewrite (stepAccessor_GetOutput_keeps_input _ _ _ _ _ Hget).
  - apply IH. by eapply stepAccessor_GetInput_keeps_input.
Qed.
End StepAccessorInputFacts.

(** X20.  Once [GetInput(stepId)] has succeeded on a step data
    accessor, the recorded input stays in the accessor's input cache
    through every later [GetOutput] and [GetInput] call on it, and every
    later [GetInput(stepId)] returns the same value without reading the
    store: the step execution may have been rewritten or be gone. *)
Theorem stepAccessor_GetInput_cached
    {S : Type} `{WorkflowStore S} {V : Type} `{JSON V}
    (a a1 a2 : stepAccessor) (s : S) (stepID : string) (v : V) :
  stepAccessor_GetInput a s stepID = (a1, Ok v) ->
  stepAccessor_calls a1 a2 ->
  exists data,
    json_Unmarshal data = Ok v
    /\ inputCache a2 !! stepID = Some data
    /\ forall s' : S, stepAccessor_GetInput a2 s' stepID = (a2, Ok v).
Proof.
  intros Hget Hcalls.
  destruct (stepAccessor_GetInput_ok a a1 s stepID v Hget) as (data & Hu & Hc1).
  pose proof (stepAccessor_calls_keep_input a1 a2 stepID data Hcalls Hc1)
    as Hc2.
  exists data. split; [exact Hu|]. split; [exact Hc2|].
  intros s'. unfold stepAccessor_GetInput. by rewrite Hc2, Hu.
Qed.

Lemma CreateStepExecution_then_get (s : MemoryStore.t)
    (exec : StepExecution.t) :
  MemoryStore.GetStepExecution (MemoryStore.CreateStepExecution s exec).1
    (StepExecution.RunID exec) (StepExecution.StepID exec) = Ok exec.
Proof.
  unfold MemoryStore.GetStepExecution. simpl.
  by rewrite !lookup_insert_eq, !deepCopyStepExecution_id.
Qed.

(** X21.  Over the in-memory store, [GetInput] of a step whose
    execution has been created decodes the input recorded in that
    execution; when the execution was recorded without input, it fails
    with "no input found" (and caches nothing), and when no execution is
    stored for the step it fails with [ErrStepExecutionNotFound]
    wrapped. *)
Theorem stepAccessor_GetInput_reads_execution {V : Type} `{JSON V}
    (a : stepAccessor) (s : MemoryStore.t) (exec : StepExecution.t) :
  inputCache a !! StepExecution.StepID exec = None ->
  sa_runID a = StepExecution.RunID exec ->
  (MemoryStore.storedStepExecution s (sa_runID a) (StepExecution.StepID exec)
   = None ->
   stepAccessor_GetInput (V := V) a s (StepExecution.StepID exec)
   = (a, Err (ErrWrap ("failed to load step execution for step "
                       +:+ StepExecution.StepID exec)
                ErrStepExecutionNotFound)))
  /\ (stepAccessor_GetInput (V := V) a
        (MemoryStore.CreateStepExecution s exec).1 (StepExecution.StepID exec)
      = match StepExecution.Input exec with
        | None =>
            (a, Err (Errorf ("no input found for step "
                             +:+ StepExecution.StepID exec)))
        | Some input =>
            (mkStepAccessor (sa_runID a) (outputCache a)
               (<[StepExecution.StepID exec := input]> (inputCache a)),
             match json_Unmarshal input with
             | Ok v => Ok v
             | Err err =>
                 Err (ErrWrap ("failed to unmarshal input for step "
                               +:+ StepExecution.StepID exec) err)
             end)
        end).
Proof.
  intros Hc Hrun. split.
  - intros Hnone. unfold stepAccessor_GetInput. rewrite Hc. simpl.
    unfold MemoryStore.storedStepExecution in Hnone.
    unfold MemoryStore.GetStepExecution.
    destruct (MemoryStore.stepExecutions s !! sa_runID a) as [m|]; simpl in *;
      [by rewrite Hnone|done].
  - pose proof (CreateStepExecution_then_get s exec) as Hget.
    unfold stepAccessor_GetInput. rewrite Hc, Hrun.
    cbn [GetStepExecution MemoryStore_WorkflowStore]. rewrite Hget.
    destruct (StepExecution.Input exec) as [input|]; [|done].
    by destruct (json_Unmarshal input).
Qed.

Lemma stepAccessor_GetInput_cached_witness :
  let s := (MemoryStore.CreateStepExecution MemoryStore.NewMemoryStore
              (boolExec "check")).1 in
  let r := stepAccessor_GetInput (V := bool) (NewStepAccessor "run-1") s
             "check" in
  r.2 = Ok true
  /\ stepAccessor_GetInput (V := bool) r.1 MemoryStore.NewMemoryStore "check"
     = (r.1, Ok true).
Proof.
  intros s r.
  destruct (stepAccessor_GetInput_cached (NewStepAccessor "run-1") r.1 r.1
              s "check" true) as (data & _ & _ & Hlater).
  - vm_compute. reflexivity.
  - apply calls_done.
  - split; [vm_compute; reflexivity | apply Hlater].
Defined.

Lemma stepAccessor_GetInput_reads_execution_witness :
  (stepAccessor_GetInput (V := bool) (NewStepAccessor "run-1")
     (MemoryStore.CreateStepExecution MemoryStore.NewMemoryStore
        (boolExec "check")).1 "check").2 = Ok true
  /\ (stepAccessor_GetInput (V := bool) (NewStepAccessor "run-1")
        MemoryStore.NewMemoryStore "check").2
     = Err (ErrWrap "failed to load step execution for step check"
              ErrStepExecutionNotFound).
Proof.
  destruct (stepAccessor_GetInput_reads_execution (V := bool)
              (NewStepAccessor "run-1") MemoryStore.NewMemoryStore
              (boolExec "check")) as [Hmiss Hread]; [reflexivity..|].
  split.
  - exact (f_equal snd Hread).
  - exact (f_equal snd (Hmiss eq_refl)).
Defined.

(** ** Run context *)

(** X22.  [GetRunContext] never decodes an absent or empty context: it
    answers "workflow run has no context".  Since the in-memory store
    hands back the context bytes unchanged, the context read from a run
    fetched with [GetRun] is the context read from the run as it was
    created. *)
Theorem GetRunContext_through_store {V : Type} `{JSON V}
    (s s' : MemoryStore.t) (run : WorkflowRun.t) :
  MemoryStore.CreateRun s run = (s', None) ->
  (exists fetched,
     MemoryStore.GetRun s' (WorkflowRun.RunID run) = Ok fetched
     /\ GetRunContext (V := V) fetched = GetRunContext (V := V) run)
  /\ (WorkflowRun.Context run = None \/ WorkflowRun.Context run = Some [] ->
      GetRunContext (V := V) run = Err (Errorf "workflow run has no context"))
  /\ (forall ctx v,
        WorkflowRun.Context run = Some ctx -> ctx <> [] ->
        json_Unmarshal ctx = Ok v ->
        GetRunContext (V := V) run = Ok v).
Proof.
  intros Hcreate. apply CreateRun_ok_inv in Hcreate as [_ Hget].
  split; [|split].
  - exists run. split; [by apply GetRun_ok_inv|done].
  - unfold GetRunContext. by intros [->| ->].
  - intros ctx v Hctx Hne Hu. unfold GetRunContext. rewrite Hctx.
    destruct ctx as [|b ctx]; [done|]. by rewrite Hu.
Qed.

Lemma GetRunContext_through_store_witness :
  let s := (MemoryStore.CreateRun MemoryStore.NewMemoryStore contextRun).1 in
  exists fetched,
    MemoryStore.GetRun s "run-1" = Ok fetched
    /\ GetRunContext (V := bool) fetched = Ok true.
Proof.
  intros s.
  destruct (GetRunContext_through_store (V := bool) MemoryStore.NewMemoryStore
              s contextRun) as ((fetched & Hget & Hctx) & _ & Hok).
  - reflexivity.
  - exists fetched. split; [exact Hget|]. rewrite Hctx.
    apply (Hok (lit "true") true); [reflexivity | discriminate | reflexivity].
Defined.

(** ** Validation *)

(** X23.  Validation that is switched off is not run: with a nil
    config, with [validateInput] false, or with a nil validator,
    [validateInputData] is the JSON decoding alone (a decoding error is
    wrapped as "failed to unmarshal input"), whatever a validator would
    have said. *)
Theorem validateInputData_without_validation {V : Type} `{JSON V}
    (data : bytes) (config : option (validationConfig V)) :
  (config = None
   \/ exists c, config = Some c
                /\ (validateInput c = false \/ validator c = None)) ->
  validateInputData data config
  = match json_Unmarshal data with
    | Ok input => Ok input
    | Err err => Err (ErrWrap "failed to unmarshal input" err)
    end.
Proof.
  unfold validateInputData, validateStruct.
  intros [->|(c & -> & [Hoff|Hnil])];
    destruct (json_Unmarshal data); try done.
  - by rewrite Hoff.
  - rewrite Hnil. by destruct (validateInput c).
Qed.

Lemma validateInputData_without_validation_witness :
  validateInputData (V := bool) (lit "false")
    (Some (mkValidationConfig false true (validator mustBeTrue)))
  = Ok false
  /\ validateInputData (V := bool) (lit "false") (Some mustBeTrue)
     = Err (ErrWrap "input validation failed"
              (newValidationError (Errorf "required"))).
Proof.
  split; [|reflexivity].
  rewrite validateInputData_without_validation; [reflexivity|].
  right. eexists. split; [reflexivity|]. by left.
Defined.

(** X24.  What a config lets out, it lets in.  If [validateOutputData]
    returns bytes for a value under a config that validates output,
    then the validator accepted the value and the bytes are its JSON
    encoding; and if the value round-trips through JSON,
    [validateInputData] under the same config returns the value. *)
Theorem validated_output_is_valid_input {V : Type} `{JSON V}
    (c : validationConfig V) (v : V) (b : bytes) :
  validateOutput c = true ->
  validateOutputData v (Some c) = Ok b ->
  validateStruct (Some c) v = None
  /\ json_Marshal v = Ok b
  /\ (json_roundtrips v -> validateInputData b (Some c) = Ok v).
Proof.
  intros Hon. unfold validateOutputData. rewrite Hon.
  destruct (validateStruct (Some c) v) as [err|] eqn:Hv; [done|].
  destruct (json_Marshal v) as [b'|err] eqn:Hm; [|done].
  intros [= ->]. split; [done|]. split; [done|].
  intros (data & Hm' & Hu). assert (data = b) as -> by congruence.
  unfold validateInputData. rewrite Hu, Hv. by destruct (validateInput c).
Qed.

Lemma validated_output_is_valid_input_witness :
  validateOutputData true (Some mustBeTrue) = Ok (lit "true")
  /\ validateInputData (lit "true") (Some mustBeTrue) = Ok true
  /\ is_ok (validateOutputData false (Some mustBeTrue)) = false.
Proof.
  destruct (validated_output_is_valid_input mustBeTrue true (lit "true"))
    as (_ & _ & Hin); [reflexivity | reflexivity |].
  split; [reflexivity|]. split; [|reflexivity].
  apply Hin. exists (lit "true"). split; reflexivity.
Defined.

(** ** SQL text helpers *)





(** ** Build: when it succeeds, and what it leaves alone *)

Lemma buildLoop_total (ids : list string) (w : Workflow) :
  (forall stepID, stepID ∈ ids -> is_Some (steps w !! stepID)) ->
  exists w', buildLoop w ids = (w', None).
Proof.
  revert w. induction ids as [|x rest IH]; intros w Hall; [by eexists|].
  simpl. unfold Workflow_GetStep.
  destruct (Hall x) as [st Hst]; [apply elem_of_cons; by left|].
  rewrite Hst. apply IH. intros stepID Hin.
  assert (Hs : is_Some (steps w !! stepID))
    by (apply Hall, elem_of_cons; by right).
  destruct (decide (Step_GetConfig st = DefaultExecutionConfig)); [|done].
  simpl. destruct (decide (x = stepID)) as [->|Hne].
  - rewrite lookup_insert_eq. eauto.
  - by rewrite lookup_insert_ne.
Qed.

Lemma buildLoop_missing (ids : list string) (w : Workflow) (stepID : string) :
  stepID ∈ ids -> steps w !! stepID = None ->
  exists w' err, buildLoop w ids = (w', Some err).
Proof.
  revert w. induction ids as [|x rest IH]; intros w Hin Hnone;
    [by apply elem_of_nil in Hin|].
  simpl. unfold Workflow_GetStep.
  destruct (steps w !! x) as [st|] eqn:Hst; [|by eexists _, _].
  assert (x <> stepID) by congruence.
  apply elem_of_cons in Hin as [?|Hin]; [congruence|].
  apply IH; [done|].
  destruct (decide (Step_GetConfig st = DefaultExecutionConfig)); [|done].
  simpl. by rewrite lookup_insert_ne.
Qed.

Lemma node_ids (g : Graph) (stepID : string) :
  stepID ∈ (map_to_list (Nodes g)).*1 <-> is_Some (Nodes g !! stepID).
Proof.
  rewrite list_elem_of_fmap. split.
  - intros ([id nt] & -> & Hin%elem_of_map_to_list). by exists nt.
  - intros [nt Hnt]. exists (stepID, nt). split; [done|].
    by apply elem_of_map_to_list.
Qed.

(** X26.  [Build] succeeds exactly when the graph validates and every
    node of the graph has a registered step.  When the graph does not
    validate, [Build] returns the validation error wrapped and leaves
    the builder, and so every step's config, as it was. *)
Theorem Build_succeeds_iff (Graph_Validate : Graph -> option error)
    (b : WorkflowBuilder) :
  ((exists b' wf, Build Graph_Validate b = (b', Ok wf))
   <-> Graph_Validate (graph (workflow b)) = None
       /\ forall stepID,
            is_Some (Nodes (graph (workflow b)) !! stepID) ->
            is_Some (steps (workflow b) !! stepID))
  /\ (forall err,
        Graph_Validate (graph (workflow b)) = Some err ->
        Build Graph_Validate b
        = (b, Err (ErrWrap "invalid workflow graph" err))).
Proof.
  unfold Build. split; [split|].
  - intros (b' & wf & Hb).
    destruct (Graph_Validate (graph (workflow b))); [done|].
    split; [done|]. intros stepID Hnode%node_ids.
    destruct (steps (workflow b) !! stepID) eqn:Hst; [eauto|].
    destruct (buildLoop_missing _ _ _ Hnode Hst) as (w' & err & Hloop).
    by rewrite Hloop in Hb.
  - intros [-> Hall].
    destruct (buildLoop_total (map_to_list (Nodes (graph (workflow b)))).*1
                (workflow b)) as [w' Hloop].
    { intros stepID Hin%node_ids. by apply Hall. }
    rewrite Hloop. by eexists _, _.
  - by intros err ->.
Qed.

Lemma buildLoop_fixed (ids : list string) (w : Workflow) :
  (forall stepID, stepID ∈ ids ->
     exists st, steps w !! stepID = Some st
                /\ (Step_GetConfig st = DefaultExecutionConfig ->
                    Step_GetConfig st = config w)) ->
  buildLoop w ids = (w, None).
Proof.
  induction ids as [|x rest IH]; intros Hall; [done|].
  simpl. unfold Workflow_GetStep.
  destruct (Hall x) as (st & Hst & Hcfg); [apply elem_of_cons; by left|].
  rewrite Hst.
  assert (Hsame :
    (if decide (Step_GetConfig st = DefaultExecutionConfig)
     then with_steps w
            (<[x := Step_SetConfig st (Workflow_GetConfig w)]> (steps w))
     else w) = w).
  { destruct (decide (Step_GetConfig st = DefaultExecutionConfig)) as [Hd|];
      [|done].
    unfold Workflow_GetConfig. rewrite <- (Hcfg Hd).
    assert (Step_SetConfig st (Step_GetConfig st) = st) as -> by by destruct st.
    rewrite insert_id by done. by destruct w. }
  rewrite Hsame. apply IH. intros stepID Hin. apply Hall, elem_of_cons.
  by right.
Qed.

(** X27.  [Build] is idempotent: building again after a successful
    [Build] returns the same workflow and leaves the builder as the
    first [Build] left it. *)
Theorem Build_idempotent (Graph_Validate : Graph -> option error)
    (b b' : WorkflowBuilder) (wf : Workflow) :
  Build Graph_Validate b = (b', Ok wf) ->
  Build Graph_Validate b' = (b', Ok wf).
Proof.
  unfold Build. intros Hbuild.
  destruct (Graph_Validate (graph (workflow b))) eqn:Hv; [done|].
  destruct (buildLoop (workflow b)
              (map_to_list (Nodes (graph (workflow b)))).*1)
    as [w' [err|]] eqn:Hloop; [done|].
  injection Hbuild as <- <-. simpl.
  destruct (buildLoop_ok _ _ _ (NoDup_fst_map_to_list _) Hloop)
    as (Hc & Hg & Hsome & Hsteps).
  rewrite Hg, Hv.
  rewrite buildLoop_fixed; [done|].
  intros stepID Hin. destruct (Hsome stepID Hin) as [st Hst].
  specialize (Hsteps stepID). rewrite decide_True in Hsteps by done.
  rewrite Hst in Hsteps. simpl in Hsteps.
  eexists. split; [exact Hsteps|].
  destruct (decide (Step_GetConfig st = DefaultExecutionConfig)) as [Hd|Hd].
  - intros _. simpl. by rewrite Hc.
  - done.
Qed.

Lemma Build_idempotent_witness :
  let r := Build (fun _ => None) sampleBuilder in
  Build (fun _ => None) r.1 = r.
Proof.
  intros r.
  assert (Hr : exists wf, Build (fun _ => None) sampleBuilder = (r.1, Ok wf)).
  { eexists. vm_compute. reflexivity. }
  destruct Hr as [wf Hr].
  rewrite (Build_idempotent (fun _ => None) sampleBuilder r.1 wf Hr).
  unfold r. by rewrite Hr.
Defined.

(** X28.  A successful [Build] changes configs only: the workflow keeps
    its graph and default config, the same step ids are registered, each
    step keeps its id and name, and a registered step that is not a node
    of the graph is not touched at all (it keeps the default config if
    it had it). *)
Theorem Build_changes_configs_only (Graph_Validate : Graph -> option error)
    (b b' : WorkflowBuilder) (wf : Workflow) :
  Build Graph_Validate b = (b', Ok wf) ->
  graph wf = graph (workflow b)
  /\ config wf = config (workflow b)
  /\ lastStepIDs b' = lastStepIDs b
  /\ currentChain b' = currentChain b
  /\ (forall stepID,
        Nodes (graph (workflow b)) !! stepID = None ->
        steps wf !! stepID = steps (workflow b) !! stepID)
  /\ (forall stepID,
        match steps (workflow b) !! stepID, steps wf !! stepID with
        | Some st, Some st' =>
            step_ID st' = step_ID st /\ step_Name st' = step_Name st
        | None, None => True
        | _, _ => False
        end).
Proof.
  unfold Build. intros Hbuild.
  destruct (Graph_Validate (graph (workflow b))); [done|].
  destruct (buildLoop (workflow b)
              (map_to_list (Nodes (graph (workflow b)))).*1)
    as [w' [err|]] eqn:Hloop; [done|].
  injection Hbuild as <- <-. simpl.
  destruct (buildLoop_ok _ _ _ (NoDup_fst_map_to_list _) Hloop)
    as (Hc & Hg & Hsome & Hsteps).
  split; [done|]. split; [done|]. split; [done|]. split; [done|]. split.
  - intros stepID Hnone. rewrite Hsteps. rewrite decide_False; [done|].
    intros [nt Hnt]%node_ids. congruence.
  - intros stepID. rewrite Hsteps.
    destruct (decide (stepID ∈ (map_to_list (Nodes (graph (workflow b)))).*1));
      destruct (steps (workflow b) !! stepID) as [st|]; simpl; try done.
    by destruct (decide (Step_GetConfig st = DefaultExecutionConfig)).
Qed.

Lemma Build_changes_configs_only_witness :
  let r := Build (fun _ => None) sampleBuilder in
  lastStepIDs r.1 = ["fetch"]
  /\ step_Name <$> steps (workflow r.1) !! "add" = Some "Add".
Proof.
  intros r.
  assert (Hr : exists wf, Build (fun _ => None) sampleBuilder = (r.1, Ok wf)).
  { eexists. vm_compute. reflexivity. }
  destruct Hr as [wf Hr].
  destruct (Build_changes_configs_only (fun _ => None) sampleBuilder r.1 wf Hr)
    as (_ & _ & Hlast & _).
  split; [by rewrite Hlast | vm_compute; reflexivity].
Defined.

(** ** Step outputs, and accessors over a failing store *)

(** X29.  [SaveStepOutput] never fails and does not need the run or the
    step to exist; a second save for the same (run id, step id) replaces
    the first, so the last bytes saved are the ones loaded; the outputs
    of every other (run id, step id) load as before, and runs, step
    executions and state are as before. *)
Theorem SaveStepOutput_last_write_wins (s : MemoryStore.t)
    (runID stepID : string) (first second : bytes) :
  let s1 := (MemoryStore.SaveStepOutput s runID stepID first).1 in
  let s2 := (MemoryStore.SaveStepOutput s1 runID stepID second).1 in
  (MemoryStore.SaveStepOutput s1 runID stepID second).2 = None
  /\ MemoryStore.LoadStepOutput s2 runID stepID = Ok second
  /\ s2 = (MemoryStore.SaveStepOutput s runID stepID second).1
  /\ (forall runID' stepID',
        (runID', stepID') <> (runID, stepID) ->
        MemoryStore.LoadStepOutput s2 runID' stepID'
        = MemoryStore.LoadStepOutput s runID' stepID')
  /\ MemoryStore.runs s2 = MemoryStore.runs s
  /\ MemoryStore.stepExecutions s2 = MemoryStore.stepExecutions s
  /\ MemoryStore.state s2 = MemoryStore.state s.
Proof.
  intros s1 s2. unfold s2, s1, MemoryStore.SaveStepOutput. simpl.
  split; [done|]. split.
  { unfold MemoryStore.LoadStepOutput. simpl.
    by rewrite !lookup_insert_eq, !copy_make. }
  split.
  { rewrite lookup_insert_eq. simpl. by rewrite !insert_insert_eq. }
  split; [|done].
  intros runID' stepID' Hne. unfold MemoryStore.LoadStepOutput. simpl.
  rewrite lookup_insert_eq. simpl. rewrite !insert_insert_eq.
  destruct (decide (runID' = runID)) as [->|Hr].
  - rewrite lookup_insert_eq.
    rewrite lookup_insert_ne by congruence.
    by destruct (MemoryStore.stepOutputs s !! runID).
  - by rewrite lookup_insert_ne.
Qed.

(** X30.  The accessors cannot tell a failing store from a missing
    entry: over the SQL store with its database handle closed, [Has] and
    [HasOutput] answer false for every key that is not in the
    accessor's cache, also for entries the database holds, while
    [Get] and [GetOutput] return the database error wrapped. *)
Theorem accessors_over_closed_store {V : Type} `{JSON V}
    (st : stateAccessor) (sa : stepAccessor) (s : LibSQLStore.t)
    (key stepID : string) :
  LibSQLStore.closed s = true ->
  cache st !! key = None ->
  outputCache sa !! stepID = None ->
  stateAccessor_Has st s key = false
  /\ stepAccessor_HasOutput sa s stepID = false
  /\ stateAccessor_Get (V := V) st s key
     = (st, Err (ErrWrap ("failed to load state for key " +:+ key)
                   (ErrWrap "failed to load state" ErrSqlDatabaseClosed)))
  /\ stepAccessor_GetOutput (V := V) sa s stepID
     = (sa, Err (ErrWrap ("failed to load output for step " +:+ stepID)
                   (ErrWrap "failed to load step output" ErrSqlDatabaseClosed))).
Proof.
  intros Hclosed Hst Hsa.
  unfold stateAccessor_Has, stepAccessor_HasOutput, stateAccessor_Get,
    stepAccessor_GetOutput.
  rewrite Hst, Hsa. simpl.
  unfold LibSQLStore.LoadState, LibSQLStore.LoadStepOutput.
  by rewrite Hclosed.
Qed.

Lemma accessors_over_closed_store_witness :
  let s := (LibSQLStore.SaveState LibSQLStore.NewLibSQLStore
              "run-1" "done" (lit "true")).1 in
  stateAccessor_Has (NewStateAccessor "run-1") s "done" = true
  /\ stateAccessor_Has (NewStateAccessor "run-1") (LibSQLStore.Close s).1 "done"
     = false.
Proof.
  intros s. split; [vm_compute; reflexivity|].
  destruct (accessors_over_closed_store (V := bool) (NewStateAccessor "run-1")
              (NewStepAccessor "run-1") (LibSQLStore.Close s).1 "done" "add")
    as (Hhas & _); [reflexivity..|].
  exact Hhas.
Defined.
